(** * SalesPulse dashboard: the filter-and-aggregate pipeline of [app.py]

    The script loads one table of sales lines, narrows it with the widgets
    of the top bar (region, state, city, start and end date) and feeds the
    narrowed frame to the metric cards and to the chart of the selected page.

    Conventions of the embedding.
    - A [DataFrame] is the list of its rows, in index order.
    - [order_date] and [ship_date] are calendar dates (day resolution, the
      schema of the data model); a date is its (year, month, day) triple and
      dates compare in that order, as timestamps do.
    - The cells of a loaded table are all present (a clean table); the
      section on missing label cells says what the top cards do without
      that.
    - The monetary columns [sales] and [profit] are amounts counted in the
      smallest currency unit, so the sums of this model are exact. pandas
      holds them as float64: what depends on the order of the values only
      is the same there, what depends on how additions round is not; the
      section on the category law gives its two sums at float64
      precision.
    - [quantity] is an int64 column; its sum wraps around as int64 does.
    - Strings are byte strings; their order is the byte-wise lexicographic
      one, which on UTF-8 text is Python's code-point order.
    - [sort_values] is called with the default [kind='quicksort']. numpy
      documents that kind as not stable, so the argsort kernel is a
      parameter of the rankings, bound only by what numpy promises of it.
      [argsort_simd] is the kernel numpy runs on short float64 columns on
      processors with vector registers. *)

From Stdlib Require Import ZArith QArith String Ascii List Bool Lia.
From Stdlib Require Import PrimFloat.
From Stdlib Require Import Sorting.Sorted Sorting.Permutation.
From Stdlib Require Import Structures.OrderedTypeEx.
From stdpp Require Import base list sorting strings pretty gmap.

Local Open Scope Z_scope.
Set Warnings "-inexact-float".

(** ** Calendar dates *)

Record Timestamp := mkTimestamp { year : Z; month : Z; day : Z }.

Definition ts_compare (a b : Timestamp) : comparison :=
  match year a ?= year b with
  | Eq => match month a ?= month b with
          | Eq => day a ?= day b
          | c => c
          end
  | c => c
  end.

(** [a <= b] and [a >= b] on timestamps, as boolean masks use them. *)
Definition ts_leb (a b : Timestamp) : bool :=
  match ts_compare a b with Gt => false | _ => true end.
Definition ts_geb (a b : Timestamp) : bool := ts_leb b a.

(** The order the comparisons decide, written out on the triple. *)
Definition ts_le (a b : Timestamp) : Prop :=
  year a < year b ∨
  (year a = year b ∧ (month a < month b ∨ (month a = month b ∧ day a ≤ day b))).
Definition ts_lt (a b : Timestamp) : Prop :=
  year a < year b ∨
  (year a = year b ∧ (month a < month b ∨ (month a = month b ∧ day a < day b))).

(** ** Rows and frames *)

Module Col.
Record Row := mkRow {
  order_id : string;
  order_date : Timestamp;
  ship_date : Timestamp;
  region : string;
  state : string;
  city : string;
  category : string;
  sub_category : string;
  product_name : string;
  sales : Z;
  quantity : Z;
  profit : Z;
  ship_mode : string
}.
End Col.
Abbreviation Row := Col.Row.

Definition DataFrame : Type := list Row.

(** [df[mask]]: boolean indexing keeps the rows whose mask cell is [True],
    in index order. *)
Definition select (mask : Row → bool) (df : DataFrame) : DataFrame :=
  List.filter mask df.

(** [df.empty] *)
Definition empty (df : DataFrame) : bool :=
  match df with [] => true | _ => false end.

(** ** The filter widgets and the filtered frame *)

Record FilterSpec := mkFilterSpec {
  region : string;
  state : string;
  city : string;
  start_date : Timestamp;
  end_date : Timestamp
}.

Definition All : string := "All".

(** Python's [s != t] on strings. *)
Definition str_ne (s t : string) : bool := negb (String.eqb s t).

(** Lines 111-118: the copy, the three guarded equality masks and the date
    mask, each applied to the frame the previous step left. *)
Definition df_filtered (df : DataFrame) (spec : FilterSpec) : DataFrame :=
  let df_filtered := df in
  let df_filtered :=
    if str_ne (region spec) All
    then select (λ r, String.eqb (Col.region r) (region spec)) df_filtered
    else df_filtered in
  let df_filtered :=
    if str_ne (state spec) All
    then select (λ r, String.eqb (Col.state r) (state spec)) df_filtered
    else df_filtered in
  let df_filtered :=
    if str_ne (city spec) All
    then select (λ r, String.eqb (Col.city r) (city spec)) df_filtered
    else df_filtered in
  select (λ r, ts_geb (Col.order_date r) (start_date spec)
               && ts_leb (Col.order_date r) (end_date spec)) df_filtered.

(** [Series.min()] and [Series.max()] of a date column; an empty column has
    neither (pandas answers [NaT]). *)
Definition ts_min (a b : Timestamp) : Timestamp := if ts_leb a b then a else b.
Definition ts_max (a b : Timestamp) : Timestamp := if ts_leb a b then b else a.

Definition col_min (c : list Timestamp) : option Timestamp :=
  match c with
  | [] => None
  | x :: xs => Some (foldl ts_min x xs)
  end.
Definition col_max (c : list Timestamp) : option Timestamp :=
  match c with
  | [] => None
  | x :: xs => Some (foldl ts_max x xs)
  end.

Definition min_date (df : DataFrame) : option Timestamp :=
  col_min (map Col.order_date df).
Definition max_date (df : DataFrame) : option Timestamp :=
  col_max (map Col.order_date df).

(** The filter as the design states it: one pass that keeps a row when all
    active predicates hold together. *)
Definition active_predicates (spec : FilterSpec) (r : Row) : Prop :=
  (region spec ≠ All → Col.region r = region spec) ∧
  (state spec ≠ All → Col.state r = state spec) ∧
  (city spec ≠ All → Col.city r = city spec) ∧
  ts_le (start_date spec) (Col.order_date r) ∧
  ts_le (Col.order_date r) (end_date spec).

Definition satisfies (spec : FilterSpec) (r : Row) : bool :=
  (String.eqb (region spec) All || String.eqb (Col.region r) (region spec))
  && (String.eqb (state spec) All || String.eqb (Col.state r) (state spec))
  && (String.eqb (city spec) All || String.eqb (Col.city r) (city spec))
  && ts_leb (start_date spec) (Col.order_date r)
  && ts_leb (Col.order_date r) (end_date spec).

Definition filter_spec (df : DataFrame) (spec : FilterSpec) : DataFrame :=
  List.filter (satisfies spec) df.

(** ** Group labels and their order *)

(** What [groupby] needs of a label type: the order it sorts the group
    labels by. *)
Class KeyOrd (K : Type) := { key_leb : K → K → bool }.

Global Instance string_KeyOrd : KeyOrd string := {| key_leb := String.leb |}.

(** A monthly period, the value of [dt.to_period('M')]. *)
Record Period := mkPeriod { p_year : Z; p_month : Z }.

Definition to_period_M (t : Timestamp) : Period :=
  {| p_year := year t; p_month := month t |}.

Definition period_leb (p q : Period) : bool :=
  match p_year p ?= p_year q with
  | Eq => p_month p <=? p_month q
  | Lt => true
  | Gt => false
  end.

Global Instance Period_KeyOrd : KeyOrd Period := {| key_leb := period_leb |}.

(** The label order is a total order. *)
Class KeyOrdLaws (K : Type) `{KeyOrd K} : Prop := {
  key_leb_total (a b : K) : key_leb a b = true ∨ key_leb b a = true;
  key_leb_trans (a b c : K) :
    key_leb a b = true → key_leb b c = true → key_leb a c = true;
  key_leb_antisym (a b : K) :
    key_leb a b = true → key_leb b a = true → a = b
}.

(** Strictly before, in label order. *)
Definition key_lt {K} `{KeyOrd K} (a b : K) : Prop :=
  key_leb a b = true ∧ a ≠ b.

Global Instance Period_eq_dec : EqDecision Period.
Proof. solve_decision. Defined.

Global Instance Timestamp_eq_dec : EqDecision Timestamp.
Proof. solve_decision. Defined.

(** Chronological order of periods, written out. *)
Definition period_lt (p q : Period) : Prop :=
  p_year p < p_year q ∨ (p_year p = p_year q ∧ p_month p < p_month q).

(** [str(period)]: ["2023-01"]. *)
Definition zfill (width : nat) (s : string) : string :=
  Nat.iter (width - String.length s) (λ t, "0" +:+ t) s.

Definition period_str (p : Period) : string :=
  zfill 4 (pretty (p_year p)) +:+ "-" +:+ zfill 2 (pretty (p_month p)).

(** ** Errors *)

Inductive result (A : Type) : Type :=
| Ok (a : A)
| Raise (exn : string).
Arguments Ok {A} a.
Arguments Raise {A} exn.

Definition rbind {A B} (m : result A) (f : A → result B) : result B :=
  match m with
  | Ok a => f a
  | Raise e => Raise e
  end.

(** ** Series: an index of labels with one value each, in index order *)

Module Series.
Definition t (K : Type) : Type := list (K * Z).

(** [Series.sum()]; the sum of an empty column is 0. *)
Definition sum (vs : list Z) : Z := foldr Z.add 0 vs.

Definition index {K} (s : t K) : list K := map fst s.
Definition values {K} (s : t K) : list Z := map snd s.

(** [Series.idxmax()]: the label of the first occurrence of the maximum;
    on an empty series pandas raises [ValueError]. *)
Fixpoint idxmax_from {K} (best : K * Z) (s : t K) : K :=
  match s with
  | [] => fst best
  | kv :: s' =>
      if snd best <? snd kv then idxmax_from kv s' else idxmax_from best s'
  end.

Definition idxmax {K} (s : t K) : result K :=
  match s with
  | [] => Raise "ValueError: attempt to get argmax of an empty sequence"
  | kv :: s' => Ok (idxmax_from kv s')
  end.

(** [take(indexer)]: the entries at the given positions, in that order. *)
Definition take {A} (l : list A) (indexer : list nat) : list A :=
  omap (λ i, l !! i) indexer.

(** [nargsort(values, kind, ascending=False)]: the values and their
    positions are reversed, handed to the argsort kernel, and the
    resulting indexer is reversed again. *)
Definition nargsort_desc (argsort : list Z → list nat) (items : list Z)
  : list nat :=
  let idx := seq 0 (length items) in
  let nonnans := reverse items in
  let nonnan_idx := reverse idx in
  let indexer := take nonnan_idx (argsort nonnans) in
  reverse indexer.

(** [sort_values(ascending=False)] *)
Definition sort_values_desc {K} (argsort : list Z → list nat) (s : t K)
  : t K :=
  take s (nargsort_desc argsort (values s)).

(** [head(n)] *)
Definition head {K} (n : nat) (s : t K) : t K := list.take n s.

(** [Series.mean()] of an integer column; [None] is the [NaN] pandas
    answers on an empty column. *)
Definition mean (vs : list Z) : option Q :=
  match vs with
  | [] => None
  | _ => Some (Qmake (sum vs) (Pos.of_nat (length vs)))
  end.
End Series.

(** The contract of numpy's [argsort] for the default [kind='quicksort']:
    the answer lists every position once and reading the values in that
    order gives them ascending. Which of two equal values comes first is
    left open: of the sort kinds only ['mergesort'] and ['stable'] are
    documented as stable. *)
Definition argsort_contract (argsort : list Z → list nat) : Prop :=
  ∀ vs, argsort vs ≡ₚ seq 0 (length vs)
        ∧ Sorted Z.le (Series.take vs (argsort vs)).

(** A stable kernel lists equal values in the order of their positions;
    [kind='stable'] promises it, the default kind does not. *)
Definition argsort_stable (argsort : list Z → list nat) : Prop :=
  ∀ vs a b pa pb, (a < b)%nat →
    argsort vs !! a = Some pa → argsort vs !! b = Some pb →
    vs !! pa = vs !! pb → (pa < pb)%nat.

(** ** Aggregations over a frame *)

Section groupby.
Context {K : Type} `{KeyOrd K} `{EqDecision K}.

(** The sorted, duplicate-free list of group labels. *)
Fixpoint add_label (k : K) (ls : list K) : list K :=
  match ls with
  | [] => [k]
  | l :: ls' =>
      if decide (k = l) then ls
      else if key_leb k l then k :: ls
      else l :: add_label k ls'
  end.

Definition labels (ks : list K) : list K := foldr add_label [] ks.

(** The rows of one group. *)
Definition group (key : Row → K) (k : K) (df : DataFrame) : DataFrame :=
  select (λ r, bool_decide (key r = k)) df.

Definition group_sales (key : Row → K) (k : K) (df : DataFrame) : Z :=
  Series.sum (map Col.sales (group key k df)).

(** [df.groupby(key)['sales'].sum()]: one entry per label present, labels
    ascending ([sort=True]), the value the sum of the group's sales. *)
Definition groupby_sales_sum (key : Row → K) (df : DataFrame) : Series.t K :=
  map (λ k, (k, group_sales key k df)) (labels (map key df)).
End groupby.

(** [k] is the label with the largest group sum and, among the labels
    that reach that sum, the first in label order. *)
Definition first_argmax {K} `{KeyOrd K} `{EqDecision K}
    (key : Row → K) (df : DataFrame) (k : K) : Prop :=
  (∃ r, r ∈ df ∧ key r = k) ∧
  ∀ r, r ∈ df →
    group_sales key (key r) df ≤ group_sales key k df
    ∧ (group_sales key (key r) df = group_sales key k df
       → key_leb k (key r) = true).

(** [df[col].nunique()] *)
Definition nunique (c : list string) : nat := length (remove_dups c).

(** Days since 1970-01-01 of a civil date, for date differences. *)
Definition days_from_civil (t : Timestamp) : Z :=
  let y := if month t <=? 2 then year t - 1 else year t in
  let era := y / 400 in
  let yoe := y - era * 400 in
  let mp := if 2 <? month t then month t - 3 else month t + 9 in
  let doy := (153 * mp + 2) / 5 + day t - 1 in
  let doe := yoe * 365 + yoe / 4 - yoe / 100 + doy in
  era * 146097 + doe - 719468.

(** [(a - b).dt.days] *)
Definition days_between (a b : Timestamp) : Z :=
  days_from_civil a - days_from_civil b.

(** ** The metric cards (lines 122-129) *)

(** What a card shows, before the f-string lays it out. A card of
    [metrics] is its label and its value; the icon is left out. *)
Inductive card_value :=
| Dollars (amount : Z)
| Number (n : Z)
| Text (s : string)
| Days (avg : Q).

Global Instance result_ret : MRet result := λ A a, Ok a.
Global Instance result_bind : MBind result := λ A B f m, rbind m f.

Definition total_sales (df_filtered : DataFrame) : Z :=
  Series.sum (map Col.sales df_filtered).
(** The sum of an int64 column is an int64: it wraps around modulo 2^64
    into [-2^63, 2^63). *)
Definition int64_wrap (z : Z) : Z := (z + 2 ^ 63) mod 2 ^ 64 - 2 ^ 63.

Definition total_quantity (df_filtered : DataFrame) : Z :=
  int64_wrap (Series.sum (map Col.quantity df_filtered)).
Definition total_profit (df_filtered : DataFrame) : Z :=
  Series.sum (map Col.profit df_filtered).
Definition order_count (df_filtered : DataFrame) : Z :=
  Z.of_nat (nunique (map Col.order_id df_filtered)).

Definition top_category (df_filtered : DataFrame) : result string :=
  if negb (empty df_filtered)
  then Series.idxmax (groupby_sales_sum Col.category df_filtered)
  else Ok "-".

Definition top_city (df_filtered : DataFrame) : result string :=
  if negb (empty df_filtered)
  then Series.idxmax (groupby_sales_sum Col.city df_filtered)
  else Ok "-".

Definition metrics (df_filtered : DataFrame)
  : result (list (string * card_value)) :=
  top_cat ← top_category df_filtered;
  top_cty ← top_city df_filtered;
  Ok [ ("Total Sales", Dollars (total_sales df_filtered));
       ("Qty Sold", Number (total_quantity df_filtered));
       ("Total Profit", Dollars (total_profit df_filtered));
       ("Top Category", Text top_cat);
       ("Top City", Text top_cty);
       ("Orders", Number (order_count df_filtered)) ].

(** ** The aggregations of the pages *)

Definition cat_sales (df_filtered : DataFrame) : Series.t string :=
  groupby_sales_sum Col.category df_filtered.

Definition reg_sales (df_filtered : DataFrame) : Series.t string :=
  groupby_sales_sum Col.region df_filtered.

(** Line 201, before the labels are turned into text. *)
Definition trend (df_filtered : DataFrame) : Series.t Period :=
  groupby_sales_sum (λ r, to_period_M (Col.order_date r)) df_filtered.

Section rankings.
Variable argsort : list Z → list nat.

Definition subcat_sales (cat : string) (df_filtered : DataFrame)
  : Series.t string :=
  let data :=
    if String.eqb cat All then df_filtered
    else select (λ r, String.eqb (Col.category r) cat) df_filtered in
  Series.sort_values_desc argsort (groupby_sales_sum Col.sub_category data).

Definition top_products (df_filtered : DataFrame) : Series.t string :=
  Series.head 10
    (Series.sort_values_desc argsort
       (groupby_sales_sum Col.product_name df_filtered)).

Definition state_sales (df_filtered : DataFrame) : Series.t string :=
  Series.head 10
    (Series.sort_values_desc argsort
       (groupby_sales_sum Col.state df_filtered)).

Definition city_sales (df_filtered : DataFrame) : Series.t string :=
  Series.head 10
    (Series.sort_values_desc argsort
       (groupby_sales_sum Col.city df_filtered)).
End rankings.

Definition ship_mode (df_filtered : DataFrame) : Series.t string :=
  groupby_sales_sum Col.ship_mode df_filtered.

Definition avg_ship (df_filtered : DataFrame) : option Q :=
  Series.mean
    (map (λ r, days_between (Col.ship_date r) (Col.order_date r)) df_filtered).

(** Line 387: the text of the shipping metric. *)
Definition avg_ship_metric (df_filtered : DataFrame) : card_value :=
  match avg_ship df_filtered with
  | Some avg => Days avg
  | None => Text "-"
  end.

(** ** The script over a store of objects

    Python variables hold references. The store maps a reference to the
    frame it denotes; [copy] and boolean indexing build new frames, the
    column assignment of line 202 changes one in place. *)

Definition loc : Type := nat.

Inductive cell :=
| CPeriod (p : Period)
| CStr (s : string).

Inductive object :=
| ODataFrame (rows : DataFrame)
| OGrouped (points : list (cell * Z)).

Definition M (A : Type) : Type := gmap loc object → result (A * gmap loc object).

Global Instance M_ret : MRet M := λ A a h, Ok (a, h).
Global Instance M_bind : MBind M := λ A B f m h,
  match m h with
  | Ok (a, h') => f a h'
  | Raise e => Raise e
  end.

Definition lift {A} (r : result A) : M A := λ h,
  match r with
  | Ok a => Ok (a, h)
  | Raise e => Raise e
  end.

Definition alloc (o : object) : M loc := λ h,
  let l := fresh (dom h) in Ok (l, <[l := o]> h).

Definition read_frame (l : loc) : M DataFrame := λ h,
  match h !! l with
  | Some (ODataFrame rows) => Ok (rows, h)
  | _ => Raise "TypeError"
  end.

Definition read_grouped (l : loc) : M (list (cell * Z)) := λ h,
  match h !! l with
  | Some (OGrouped points) => Ok (points, h)
  | _ => Raise "TypeError"
  end.

(** [df.copy()] *)
Definition copy (l : loc) : M loc :=
  rows ← read_frame l; alloc (ODataFrame rows).

(** [df[mask]] *)
Definition getitem (l : loc) (mask : Row → bool) : M loc :=
  rows ← read_frame l; alloc (ODataFrame (select mask rows)).

Definition cell_str (c : cell) : cell :=
  match c with
  | CPeriod p => CStr (period_str p)
  | CStr s => CStr s
  end.

(** [t['order_date'] = t['order_date'].astype(str)]: the label column of
    the object at [l] is overwritten in place. *)
Definition setitem_astype_str (l : loc) : M unit := λ h,
  match h !! l with
  | Some (OGrouped points) =>
      Ok (tt, <[l := OGrouped (map (λ cv, (cell_str (fst cv), snd cv)) points)]> h)
  | _ => Raise "TypeError"
  end.

Inductive Page := Home | Sales | Trends | Category | Product | Location | Shipping.

Inductive payload :=
| PHome
| PSales (cat_sales reg_sales : Series.t string)
| PTrends (trend : list (cell * Z))
| PCategory (subcat_sales : Series.t string)
| PProduct (top_products : Series.t string)
| PLocation (state_sales city_sales : Series.t string)
| PShipping (ship_mode : Series.t string) (avg : card_value).

(** Lines 111-118 on references. *)
Definition filter_data (df : loc) (spec : FilterSpec) : M loc :=
  df_filtered ← copy df;
  df_filtered ←
    (if str_ne (region spec) All
     then getitem df_filtered (λ r, String.eqb (Col.region r) (region spec))
     else mret df_filtered);
  df_filtered ←
    (if str_ne (state spec) All
     then getitem df_filtered (λ r, String.eqb (Col.state r) (state spec))
     else mret df_filtered);
  df_filtered ←
    (if str_ne (city spec) All
     then getitem df_filtered (λ r, String.eqb (Col.city r) (city spec))
     else mret df_filtered);
  getitem df_filtered
    (λ r, ts_geb (Col.order_date r) (start_date spec)
          && ts_leb (Col.order_date r) (end_date spec)).

(** Lines 135-387: the selected page. *)
Definition page (argsort : list Z → list nat) (selected : Page) (cat : string)
    (df_filtered : loc) : M payload :=
  rows ← read_frame df_filtered;
  match selected with
  | Home => mret PHome
  | Sales => mret (PSales (cat_sales rows) (reg_sales rows))
  | Trends =>
      trend ← alloc (OGrouped (map (λ pv, (CPeriod (fst pv), snd pv)) (trend rows)));
      _ ← setitem_astype_str trend;
      points ← read_grouped trend;
      mret (PTrends points)
  | Category => mret (PCategory (subcat_sales argsort cat rows))
  | Product => mret (PProduct (top_products argsort rows))
  | Location =>
      mret (PLocation (state_sales argsort rows) (city_sales argsort rows))
  | Shipping => mret (PShipping (ship_mode rows) (avg_ship_metric rows))
  end.

(** One pass of the script from the loaded frame [df]. *)
Definition app (argsort : list Z → list nat) (df : loc) (spec : FilterSpec)
    (selected : Page) (cat : string)
  : M (list (string * card_value) * payload) :=
  df_filtered ← filter_data df spec;
  rows ← read_frame df_filtered;
  cards ← lift (metrics rows);
  shown ← page argsort selected cat df_filtered;
  mret (cards, shown).

(** ** What a ranking has to satisfy *)

Definition descending (vs : list Z) : Prop := StronglySorted Z.ge vs.

(** [top] is a top-10 ranking of the sales sums grouped by [key]: it has
    min(10, number of distinct labels) entries, its values descend, every
    entry is a group of the view with that group's sum, no label is listed
    twice, and the groups left out are no larger than the listed ones. *)
Definition is_ranking (key : Row → string) (df : DataFrame)
    (top : Series.t string) : Prop :=
  length top = Nat.min 10 (length (remove_dups (map key df)))
  ∧ descending (Series.values top)
  ∧ (∀ k v, (k, v) ∈ top →
       (∃ r, r ∈ df ∧ key r = k) ∧ v = group_sales key k df)
  ∧ NoDup (Series.index top)
  ∧ ∃ rest, top ++ rest ≡ₚ groupby_sales_sum key df
            ∧ ∀ x y, x ∈ top → y ∈ rest → snd y ≤ snd x.

(** Entries of [out] with equal values stand in the order in which the
    grouping step [grouped] lists them. *)
Definition ties_keep_grouping_order {K} (grouped out : list (K * Z)) : Prop :=
  ∀ i j x y, (i < j)%nat → out !! i = Some x → out !! j = Some y →
    snd x = snd y →
    ∃ i' j', (i' < j')%nat ∧ grouped !! i' = Some x ∧ grouped !! j' = Some y.

(** [m] run from store [h] finishes without raising, leaves every object
    of [h] as it was, and its answer and final store satisfy [P]. *)
Definition returns {A} (m : M A) (h : gmap loc object)
    (P : A → gmap loc object → Prop) : Prop :=
  ∃ a h', m h = Ok (a, h') ∧ h ⊆ h' ∧ P a h'.

(** The cards of an empty selection. *)
Definition empty_cards : list (string * card_value) :=
  [ ("Total Sales", Dollars 0); ("Qty Sold", Number 0);
    ("Total Profit", Dollars 0); ("Top Category", Text "-");
    ("Top City", Text "-"); ("Orders", Number 0) ].

(** ** Sample data and kernels *)

(** An argsort by insertion: positions are ordered by value; of two equal
    values the one met later goes first when [later_first] is set. *)
Fixpoint argsort_insert (later_first : bool) (vs : list Z) (i : nat)
    (sorted : list nat) : list nat :=
  match sorted with
  | [] => [i]
  | j :: rest =>
      let vi := vs !!! i in
      let vj := vs !!! j in
      if (vi <? vj) || ((vi =? vj) && later_first)
      then i :: sorted
      else j :: argsort_insert later_first vs i rest
  end.

Definition argsort_by_insertion (later_first : bool) (vs : list Z) : list nat :=
  foldl (λ acc i, argsort_insert later_first vs i acc) [] (seq 0 (length vs)).

(** The orders the insertion keeps its positions in: by value, and by
    value then position. *)
Definition before (vs : list Z) (i j : nat) : Prop := vs !!! i ≤ vs !!! j.
Definition earlier (vs : list Z) (p q : nat) : Prop :=
  vs !!! p < vs !!! q ∨ (vs !!! p = vs !!! q ∧ (p < q)%nat).

(** *** The argsort of a short float64 column on vector registers

    On processors with 512-bit vector registers numpy hands the argsort of
    a float64 column to a vectorised sort. A column of up to eight values
    is loaded into one register of eight lanes, the lanes left over hold
    +inf, and a bitonic network of six compare-and-exchange steps orders
    the lanes, each value taking its position along. In a step a lane
    keeps its own position when its value stays; so two equal values never
    change places within one step, and yet the network as a whole does not
    keep equal values in their order. *)

(** The value of a lane; [None] is the +inf of a lane left over. *)
Definition lane_leb (a b : option Z) : bool :=
  match a, b with
  | _, None => true
  | None, Some _ => false
  | Some x, Some y => x <=? y
  end.
Definition lane_min (a b : option Z) : option Z := if lane_leb a b then a else b.
Definition lane_max (a b : option Z) : option Z := if lane_leb a b then b else a.

(** One step: lane [i] meets lane [partner i]; the lanes marked [upper]
    take the larger value, the others the smaller, and the position goes
    with the value. *)
Definition cmp_merge (partner : nat → nat) (upper : nat → bool)
    (reg : list (option Z * nat)) : list (option Z * nat) :=
  imap (λ i own,
          let other := reg !!! partner i in
          let k := if upper i then lane_max (fst own) (fst other)
                   else lane_min (fst own) (fst other) in
          (k, if bool_decide (k = fst own) then snd own else snd other))
       reg.

Definition swap_adjacent (i : nat) : nat := if Nat.even i then S i else pred i.
Definition reverse_in_four (i : nat) : nat := (4 * (i / 4) + (3 - i mod 4))%nat.
Definition reverse_in_eight (i : nat) : nat := (7 - i)%nat.
Definition swap_pairs (i : nat) : nat :=
  if Nat.even (i / 2) then (i + 2)%nat else (i - 2)%nat.

Definition sort_zmm_64bit (reg : list (option Z * nat)) : list (option Z * nat) :=
  let reg := cmp_merge swap_adjacent Nat.odd reg in
  let reg := cmp_merge reverse_in_four (λ i, Nat.odd (i / 2)) reg in
  let reg := cmp_merge swap_adjacent Nat.odd reg in
  let reg := cmp_merge reverse_in_eight (λ i, (4 <=? i)%nat) reg in
  let reg := cmp_merge swap_pairs (λ i, Nat.odd (i / 2)) reg in
  cmp_merge swap_adjacent Nat.odd reg.

Definition argsort_8_64bit (arr : list Z) : list nat :=
  let N := length arr in
  let reg := zip (Some <$> arr) (seq 0 N) ++ replicate (8 - N) (None, 0%nat) in
  snd <$> take N (sort_zmm_64bit reg).

(** Every column of zeros and ones of length [n]; a network that orders
    all of them orders every column of that length. *)
Fixpoint bit_columns (n : nat) : list (list Z) :=
  match n with
  | O => [[]]
  | S n => (cons 0 <$> bit_columns n) ++ (cons 1 <$> bit_columns n)
  end.

Definition is_argsort_of (vs : list Z) (indexer : list nat) : bool :=
  bool_decide (Sorted Z.le (Series.take vs indexer))
  && bool_decide (indexer ≡ₚ seq 0 (length vs)).

(** A column of more than eight values goes through wider networks and a
    partitioning step that are not modelled here; the stable insertion
    kernel stands in for them. *)
Definition argsort_simd (vs : list Z) : list nat :=
  if (length vs <=? 8)%nat then argsort_8_64bit vs
  else argsort_by_insertion false vs.

Definition date (y m d : Z) : Timestamp := mkTimestamp y m d.

Definition sample_row (oid reg st cty cat prod : string) (od : Timestamp)
    (amount : Z) : Row :=
  Col.mkRow oid od od reg st cty cat "Sub" prod amount 1 0 "Standard Class".

Definition east_row : Row :=
  sample_row "O-1" "East" "New York" "Albany" "Furniture" "Chair"
    (date 2023 1 5) 100.
Definition west_row : Row :=
  sample_row "O-2" "West" "California" "Fresno" "Technology" "Phone"
    (date 2023 2 10) 50.
Definition sample_table : DataFrame := [east_row; west_row].

(** Two cities with the same sales. *)
Definition tied_table : DataFrame :=
  [ sample_row "O-1" "East" "New York" "Albany" "Furniture" "Chair"
      (date 2023 1 5) 100;
    sample_row "O-2" "West" "California" "Fresno" "Technology" "Phone"
      (date 2023 2 10) 100 ].

(** Four cities, the two largest with the same sales. *)
Definition four_cities : DataFrame :=
  [ sample_row "O-1" "East" "New York" "Albany" "Furniture" "Chair"
      (date 2023 1 5) 100;
    sample_row "O-2" "East" "Massachusetts" "Boston" "Furniture" "Desk"
      (date 2023 1 9) 200;
    sample_row "O-3" "East" "New Jersey" "Camden" "Technology" "Phone"
      (date 2023 2 10) 300;
    sample_row "O-4" "East" "Delaware" "Dover" "Technology" "Laptop"
      (date 2023 2 11) 300 ].

Definition year_2023 : FilterSpec :=
  mkFilterSpec All All All (date 2023 1 1) (date 2023 12 31).

(** ** The category law at float64 precision

    [sales] is a float64 column. The total of line 123 is numpy's sum of
    the column, which adds a column of fewer than eight values from left
    to right; the group sums of line 147 are accumulated by pandas with a
    running compensation (Kahan's scheme). A view is given here by its two
    columns [category] and [sales]. *)

Definition f64_sum (vs : list float) : float :=
  fold_left PrimFloat.add vs 0%float.

Definition kahan_step (acc : float * float) (val : float) : float * float :=
  let sumx := fst acc in
  let compensation := snd acc in
  let y := PrimFloat.sub val compensation in
  let t := PrimFloat.add sumx y in
  (t, PrimFloat.sub (PrimFloat.sub t sumx) y).

Definition f64_group_sum (vs : list float) : float :=
  fst (fold_left kahan_step vs (0%float, 0%float)).

(** [df_filtered['sales'].sum()] *)
Definition f64_total_sales (view : list (string * float)) : float :=
  f64_sum (map snd view).

(** [df_filtered.groupby('category')['sales'].sum()] *)
Definition f64_cat_sales (view : list (string * float))
  : list (string * float) :=
  map (λ c, (c, f64_group_sum
                  (map snd (List.filter (λ r, String.eqb (fst r) c) view))))
      (labels (map fst view)).

(** Three rows: 1.1 in one category, 1.1 and 19.99 in another. *)
Definition rounding_view : list (string * float) :=
  [ ("Furniture", 1.1%float); ("Technology", 1.1%float);
    ("Technology", 19.99%float) ].

(** ** The theme of the session (lines 8, 43-66)

    [st.session_state] is a dictionary; the script keeps the theme under
    the key ["theme"]. Reading a key that is not there raises [KeyError]. *)

Definition theme_key : string := "theme".

(** Line 8. *)
Definition dark_mode (session_state : gmap string string) : bool :=
  match session_state !! theme_key with
  | Some t => String.eqb t "dark"
  | None => false
  end.

(** Lines 43-44. *)
Definition init_theme (session_state : gmap string string)
  : gmap string string :=
  match session_state !! theme_key with
  | Some _ => session_state
  | None => <[theme_key := "light"]> session_state
  end.

(** Lines 46-47. *)
Definition toggle_theme (session_state : gmap string string)
  : result (gmap string string) :=
  match session_state !! theme_key with
  | Some t =>
      Ok (<[theme_key := if String.eqb t "light" then "dark" else "light"]>
            session_state)
  | None => Raise "KeyError: 'theme'"
  end.

Record palette := mkPalette {
  primary_bg : string;
  secondary_bg : string;
  accent : string;
  text : string
}.

(** Lines 50-59. *)
Definition theme_colors (session_state : gmap string string)
  : result palette :=
  match session_state !! theme_key with
  | Some t =>
      Ok (if String.eqb t "dark"
          then mkPalette "#18122B" "#22223B" "#a259ff" "#fff"
          else mkPalette "#fff" "#f7f7fa" "#a259ff" "#22223B")
  | None => Raise "KeyError: 'theme'"
  end.

(** Lines 62-66: the text of the sidebar button. *)
Definition theme_button_label (session_state : gmap string string)
  : result string :=
  match session_state !! theme_key with
  | Some t =>
      Ok (if String.eqb t "light" then "🌙 dark mode" else "☀️ light mode")
  | None => Raise "KeyError: 'theme'"
  end.

(** ** The options of the select boxes (lines 98-102 and 231) *)

(** [Series.unique().tolist()]: the values in order of first appearance. *)
Fixpoint unique (c : list string) : list string :=
  match c with
  | [] => []
  | x :: c' => x :: List.filter (λ y, negb (String.eqb y x)) (unique c')
  end.

(** Python's [sorted] on strings: ascending and stable. *)
Fixpoint insort (x : string) (l : list string) : list string :=
  match l with
  | [] => [x]
  | y :: l' => if String.leb x y then x :: l else y :: insort x l'
  end.

Definition sorted (l : list string) : list string := foldr insort [] l.

(** [["All"] + sorted(df[col].unique().tolist())] *)
Definition options (col : list string) : list string :=
  [All] ++ sorted (unique col).

Definition region_options (df : DataFrame) : list string :=
  options (map Col.region df).
Definition state_options (df : DataFrame) : list string :=
  options (map Col.state df).
Definition city_options (df : DataFrame) : list string :=
  options (map Col.city df).
(** Line 231, on the filtered frame. *)
Definition cat_options (df_filtered : DataFrame) : list string :=
  options (map Col.category df_filtered).

(** What the widgets hold before the user touches them: the first option of
    each select box and the two ends of the order dates. On a table without
    rows there is no date to offer. *)
Definition default_spec (df : DataFrame) : option FilterSpec :=
  match min_date df, max_date df with
  | Some lo, Some hi => Some (mkFilterSpec All All All lo hi)
  | _, _ => None
  end.

(** [spec'] asks for no more than [spec]: each selector of [spec] is
    ["All"] or repeated by [spec'], and the dates of [spec'] lie within
    those of [spec]. *)
Definition narrows (spec' spec : FilterSpec) : Prop :=
  (region spec = All ∨ region spec' = region spec)
  ∧ (state spec = All ∨ state spec' = state spec)
  ∧ (city spec = All ∨ city spec' = city spec)
  ∧ ts_le (start_date spec) (start_date spec')
  ∧ ts_le (end_date spec') (end_date spec).

(** The data of the Category page (line 232). *)
Definition category_data (cat : string) (df_filtered : DataFrame) : DataFrame :=
  if String.eqb cat All then df_filtered
  else select (λ r, String.eqb (Col.category r) cat) df_filtered.

(** A table whose quantities are not negative and add up to less than
    2^63, so that the int64 sum of the column does not wrap. *)
Definition quantities_fit_int64 (df : DataFrame) : Prop :=
  Forall (λ r, 0 ≤ Col.quantity r) df
  ∧ Series.sum (map Col.quantity df) < 2 ^ 63.

(** Two rows whose quantities add up to 2^63. *)
Definition bulk_rows : DataFrame :=
  [ Col.mkRow "O-8" (date 2023 1 5) (date 2023 1 6) "East" "New York" "Albany"
      "Furniture" "Sub" "Chair" 100 (2 ^ 62) 0 "Standard Class";
    Col.mkRow "O-9" (date 2023 1 5) (date 2023 1 6) "East" "New York" "Albany"
      "Furniture" "Sub" "Chair" 100 (2 ^ 62) 0 "Standard Class" ].

(** ** Label cells that are missing

    [read_csv] leaves a blank cell as a missing value, and [groupby]
    (with its default [dropna=True]) leaves the rows whose label is missing
    out of every group. [isna] tells of a row whether its cell in the
    grouping column is missing; the string the row carries there is then
    of no account. *)
Definition dropna (isna : Row → bool) (df : DataFrame) : DataFrame :=
  select (λ r, negb (isna r)) df.

(** Lines 126 and 127 on such a view. *)
Definition top_label (key : Row → string) (isna : Row → bool)
    (df_filtered : DataFrame) : result string :=
  if negb (empty df_filtered)
  then Series.idxmax (groupby_sales_sum key (dropna isna df_filtered))
  else Ok "-".

(** Three rows of one order, two of them in the same city. *)
Definition order_rows : DataFrame :=
  [ sample_row "O-7" "East" "New York" "Albany" "Furniture" "Chair"
      (date 2023 1 5) 40;
    sample_row "O-7" "East" "New York" "Albany" "Technology" "Phone"
      (date 2023 1 5) 25;
    sample_row "O-7" "East" "New York" "Buffalo" "Furniture" "Desk"
      (date 2023 3 9) 65 ].

(** ** Facts about dates *)

Lemma ts_leb_le a b : ts_leb a b = true ↔ ts_le a b.
Proof.
  unfold ts_leb, ts_compare, ts_le.
  destruct (Z.compare_spec (year a) (year b));
    destruct (Z.compare_spec (month a) (month b));
    destruct (Z.compare_spec (day a) (day b));
    split; intros; try discriminate; try reflexivity; lia.
Qed.

Lemma ts_leb_false_lt a b : ts_leb a b = false ↔ ts_lt b a.
Proof.
  unfold ts_leb, ts_compare, ts_lt.
  destruct (Z.compare_spec (year a) (year b));
    destruct (Z.compare_spec (month a) (month b));
    destruct (Z.compare_spec (day a) (day b));
    split; intros; try discriminate; try reflexivity; lia.
Qed.

Lemma ts_le_refl a : ts_le a a.
Proof. unfold ts_le. lia. Qed.

Lemma ts_le_trans a b c : ts_le a b → ts_le b c → ts_le a c.
Proof. unfold ts_le. lia. Qed.

Lemma ts_le_total a b : ts_le a b ∨ ts_le b a.
Proof. unfold ts_le. lia. Qed.

Lemma ts_le_lt_False a b : ts_le a b → ts_lt b a → False.
Proof. unfold ts_le, ts_lt. lia. Qed.

Lemma ts_min_le_l a b : ts_le (ts_min a b) a.
Proof.
  unfold ts_min. destruct (ts_leb a b) eqn:E.
  - apply ts_le_refl.
  - apply ts_leb_false_lt in E. unfold ts_lt, ts_le in *. lia.
Qed.

Lemma ts_min_le_r a b : ts_le (ts_min a b) b.
Proof.
  unfold ts_min. destruct (ts_leb a b) eqn:E.
  - by apply ts_leb_le.
  - apply ts_le_refl.
Qed.

Lemma ts_max_ge_l a b : ts_le a (ts_max a b).
Proof.
  unfold ts_max. destruct (ts_leb a b) eqn:E.
  - by apply ts_leb_le.
  - apply ts_le_refl.
Qed.

Lemma ts_max_ge_r a b : ts_le b (ts_max a b).
Proof.
  unfold ts_max. destruct (ts_leb a b) eqn:E.
  - apply ts_le_refl.
  - apply ts_leb_false_lt in E. unfold ts_lt, ts_le in *. lia.
Qed.

Lemma foldl_ts_min_lower xs : ∀ x,
  ts_le (foldl ts_min x xs) x ∧ ∀ y, y ∈ xs → ts_le (foldl ts_min x xs) y.
Proof.
  induction xs as [|z xs IH]; intros x; simpl.
  - split; [apply ts_le_refl | intros y Hy; inversion Hy].
  - destruct (IH (ts_min x z)) as [Hx Hrest]. split.
    + eapply ts_le_trans; [exact Hx | apply ts_min_le_l].
    + intros y Hy. apply elem_of_cons in Hy as [->|Hy]; [|by apply Hrest].
      eapply ts_le_trans; [exact Hx | apply ts_min_le_r].
Qed.

Lemma foldl_ts_max_upper xs : ∀ x,
  ts_le x (foldl ts_max x xs) ∧ ∀ y, y ∈ xs → ts_le y (foldl ts_max x xs).
Proof.
  induction xs as [|z xs IH]; intros x; simpl.
  - split; [apply ts_le_refl | intros y Hy; inversion Hy].
  - destruct (IH (ts_max x z)) as [Hx Hrest]. split.
    + eapply ts_le_trans; [apply ts_max_ge_l | exact Hx].
    + intros y Hy. apply elem_of_cons in Hy as [->|Hy]; [|by apply Hrest].
      eapply ts_le_trans; [apply ts_max_ge_r | exact Hx].
Qed.

Lemma col_min_lower c m x : col_min c = Some m → x ∈ c → ts_le m x.
Proof.
  destruct c as [|y ys]; [done|]. simpl. intros [= <-] Hx.
  destruct (foldl_ts_min_lower ys y) as [Hy Hys].
  apply elem_of_cons in Hx as [->|Hx]; auto.
Qed.

Lemma col_max_upper c m x : col_max c = Some m → x ∈ c → ts_le x m.
Proof.
  destruct c as [|y ys]; [done|]. simpl. intros [= <-] Hx.
  destruct (foldl_ts_max_upper ys y) as [Hy Hys].
  apply elem_of_cons in Hx as [->|Hx]; auto.
Qed.

(** ** Facts about boolean indexing *)

Lemma select_select f g (df : DataFrame) :
  select f (select g df) = select (λ r, g r && f r) df.
Proof.
  unfold select. induction df as [|r df IH]; [done|]. simpl.
  destruct (g r); simpl; [destruct (f r)|]; by rewrite ?IH.
Qed.

Lemma select_ext f g (df : DataFrame) :
  (∀ r, r ∈ df → f r = g r) → select f df = select g df.
Proof.
  unfold select. induction df as [|r df IH]; intros Hfg; [done|]. simpl.
  rewrite (Hfg r) by left. rewrite IH; [done|].
  intros r' Hr'. apply Hfg. by right.
Qed.

Lemma select_all f (df : DataFrame) :
  (∀ r, r ∈ df → f r = true) → select f df = df.
Proof.
  unfold select. induction df as [|r df IH]; intros Hf; [done|]. simpl.
  rewrite (Hf r) by left. f_equal. apply IH. intros r' Hr'. apply Hf. by right.
Qed.

Lemma select_none f (df : DataFrame) :
  (∀ r, r ∈ df → f r = false) → select f df = [].
Proof.
  unfold select. induction df as [|r df IH]; intros Hf; [done|]. simpl.
  rewrite (Hf r) by left. apply IH. intros r' Hr'. apply Hf. by right.
Qed.

Lemma select_sublist f (df : DataFrame) : sublist (select f df) df.
Proof.
  unfold select. induction df as [|r df IH]; simpl; [constructor|].
  destruct (f r); by constructor.
Qed.

Lemma elem_of_select f (df : DataFrame) r :
  r ∈ select f df ↔ r ∈ df ∧ f r = true.
Proof.
  unfold select. rewrite !list_elem_of_In. apply filter_In.
Qed.

Lemma select_true (df : DataFrame) : select (λ _, true) df = df.
Proof. by apply select_all. Qed.

(** ** The filter engine *)

Lemma guarded_select s (col : Row → string) (df : DataFrame) :
  (if str_ne s All then select (λ r, String.eqb (col r) s) df else df)
  = select (λ r, String.eqb s All || String.eqb (col r) s) df.
Proof.
  unfold str_ne. destruct (String.eqb s All); simpl.
  - by rewrite select_true.
  - done.
Qed.

Lemma df_filtered_filter_spec df spec :
  df_filtered df spec = filter_spec df spec.
Proof.
  unfold df_filtered, filter_spec. cbv zeta.
  rewrite !guarded_select, !select_select.
  apply select_ext. intros r _. unfold satisfies, ts_geb.
  by rewrite !andb_assoc.
Qed.

Lemma satisfies_active spec r :
  satisfies spec r = true ↔ active_predicates spec r.
Proof.
  unfold satisfies, active_predicates.
  rewrite !andb_true_iff, !orb_true_iff, !String.eqb_eq, !ts_leb_le.
  destruct (decide (region spec = All)), (decide (state spec = All)),
    (decide (city spec = All)); intuition congruence.
Qed.

(** ** Label orders *)

Lemma string_leb_iff (a b : string) :
  String.leb a b = true ↔ String_as_OT.lt a b ∨ a = b.
Proof.
  unfold String.leb.
  destruct (String.compare a b) eqn:E.
  - apply String_as_OT.cmp_eq in E. naive_solver.
  - apply String_as_OT.cmp_lt in E. naive_solver.
  - split; [done|]. intros [Hlt| ->].
    + apply String_as_OT.cmp_lt in Hlt. unfold String_as_OT.cmp in Hlt. congruence.
    + assert (String.compare b b = Eq) by by apply String_as_OT.cmp_eq.
      congruence.
Qed.

Lemma string_KeyOrdLaws : KeyOrdLaws string.
Proof.
  split; simpl.
  - apply String.leb_total.
  - intros a b c. rewrite !string_leb_iff.
    intros [Hab| ->] [Hbc| ->]; eauto using String_as_OT.lt_trans.
  - apply String.leb_antisym.
Qed.
#[global] Existing Instance string_KeyOrdLaws.

Lemma period_leb_iff (p q : Period) :
  period_leb p q = true ↔ period_lt p q ∨ p = q.
Proof.
  unfold period_leb, period_lt. destruct p as [py pm], q as [qy qm]; simpl.
  destruct (Z.compare_spec py qy) as [->|Hlt|Hgt]; rewrite ?Z.leb_le.
  - split.
    + intros Hle. destruct (decide (pm = qm)) as [->|]; [by right | left; lia].
    + intros [?|[= ->]]; lia.
  - split; [left; lia | done].
  - split; [done|]. intros [?|[= -> _]]; lia.
Qed.

Lemma Period_KeyOrdLaws : KeyOrdLaws Period.
Proof.
  split; simpl.
  - intros p q. unfold period_leb.
    rewrite (Z.compare_antisym (p_year p) (p_year q)).
    destruct (Z.compare_spec (p_year p) (p_year q)); simpl; rewrite ?Z.leb_le; lia.
  - intros p q r. rewrite !period_leb_iff. unfold period_lt.
    intros [?| ->] [?| ->]; auto. left. lia.
  - intros p q. rewrite !period_leb_iff. unfold period_lt.
    intros [?|?] [?|?]; auto. lia.
Qed.
#[global] Existing Instance Period_KeyOrdLaws.

(** ** Grouping *)

Section groupby_facts.
Context {K : Type} `{KeyOrdLaws K} `{EqDecision K}.

Lemma key_lt_trans a b c : key_lt a b → key_lt b c → key_lt a c.
Proof.
  intros [Hab Hne] [Hbc Hne']. split; [by eapply key_leb_trans|].
  intros ->. apply Hne. by apply key_leb_antisym.
Qed.

Lemma key_lt_irrefl a : ¬ key_lt a a.
Proof. by intros [_ ?]. Qed.

Lemma key_leb_false a b : key_leb a b = false → key_lt b a.
Proof.
  intros Hab. split.
  - destruct (key_leb_total a b); congruence.
  - intros ->. destruct (key_leb_total a a); congruence.
Qed.

Lemma elem_of_add_label k ls x : x ∈ add_label k ls ↔ x = k ∨ x ∈ ls.
Proof.
  induction ls as [|l ls IH]; simpl.
  - rewrite list_elem_of_singleton, elem_of_nil. tauto.
  - destruct (decide (k = l)) as [->|].
    { rewrite elem_of_cons. tauto. }
    destruct (key_leb k l).
    { rewrite (elem_of_cons (l :: ls)). tauto. }
    rewrite !elem_of_cons, IH. tauto.
Qed.

Lemma add_label_sorted k ls :
  StronglySorted key_lt ls → StronglySorted key_lt (add_label k ls).
Proof.
  induction 1 as [|l ls Hs IH Hl]; simpl.
  - repeat constructor.
  - destruct (decide (k = l)) as [->|Hne]; [by constructor|].
    destruct (key_leb k l) eqn:E.
    + constructor; [by constructor|].
      assert (key_lt k l) by done.
      constructor; [done|].
      eapply Forall_impl; [exact Hl|]. intros x Hx. by eapply key_lt_trans.
    + constructor; [done|]. apply Forall_forall. intros x Hx.
      apply elem_of_add_label in Hx as [->|Hx].
      * by apply key_leb_false.
      * by eapply Forall_forall in Hl.
Qed.

Lemma elem_of_labels ks x : x ∈ labels ks ↔ x ∈ ks.
Proof.
  induction ks as [|k ks IH]; simpl; [done|].
  rewrite elem_of_add_label, IH, elem_of_cons. tauto.
Qed.

Lemma labels_sorted ks : StronglySorted key_lt (labels ks).
Proof.
  induction ks; simpl; [constructor | by apply add_label_sorted].
Qed.

Lemma sorted_NoDup (ls : list K) : StronglySorted key_lt ls → NoDup ls.
Proof.
  induction 1 as [|l ls Hs IH Hl]; constructor; [|done].
  intros Hin. eapply Forall_forall in Hl; [|exact Hin].
  by apply key_lt_irrefl in Hl.
Qed.

Lemma labels_NoDup ks : NoDup (labels ks).
Proof. apply sorted_NoDup, labels_sorted. Qed.

Lemma labels_length ks : length (labels ks) = length (remove_dups ks).
Proof.
  apply Permutation_length, NoDup_Permutation.
  - apply labels_NoDup.
  - apply NoDup_remove_dups.
  - intros x. by rewrite elem_of_labels, elem_of_remove_dups.
Qed.

Lemma labels_nil_inv ks : labels ks = [] → ks = [].
Proof.
  destruct ks as [|k ks]; [done|]. intros Hnil.
  assert (k ∈ labels (k :: ks)) as Hin by (apply elem_of_labels; left).
  rewrite Hnil in Hin. inversion Hin.
Qed.

Variable key : Row → K.

Lemma groupby_index df :
  Series.index (groupby_sales_sum key df) = labels (map key df).
Proof.
  unfold Series.index, groupby_sales_sum. rewrite map_map. simpl.
  apply map_id.
Qed.

Lemma groupby_length df :
  length (groupby_sales_sum key df) = length (remove_dups (map key df)).
Proof.
  unfold groupby_sales_sum. by rewrite length_map, labels_length.
Qed.

Lemma elem_of_groupby df k v :
  (k, v) ∈ groupby_sales_sum key df
  ↔ (∃ r, r ∈ df ∧ key r = k) ∧ v = group_sales key k df.
Proof.
  unfold groupby_sales_sum.
  change (map ?f ?l) with (f <$> l).
  rewrite list_elem_of_fmap. split.
  - intros (k' & [= -> ->] & Hin). rewrite elem_of_labels in Hin.
    split; [|done]. apply list_elem_of_fmap in Hin as (r & -> & Hr). eauto.
  - intros [(r & Hr & <-) ->]. exists (key r). split; [done|].
    apply elem_of_labels. by apply list_elem_of_fmap_2.
Qed.

Lemma group_sales_cons r df k :
  group_sales key k (r :: df)
  = (if decide (key r = k) then Col.sales r else 0) + group_sales key k df.
Proof.
  unfold group_sales, group, select. simpl.
  unfold bool_decide. destruct (decide_rel eq (key r) k) as [->|Hne].
  - by rewrite decide_True.
  - by rewrite decide_False.
Qed.

Lemma sum_indicator_absent (ls : list K) a v :
  a ∉ ls → Series.sum (map (λ k, if decide (a = k) then v else 0) ls) = 0.
Proof.
  induction ls as [|x ls IH]; intros Hnin; [done|]. simpl.
  apply not_elem_of_cons in Hnin as [Hne Hnin].
  rewrite decide_False by done. by rewrite IH.
Qed.

Lemma sum_indicator (ls : list K) a v :
  NoDup ls → a ∈ ls →
  Series.sum (map (λ k, if decide (a = k) then v else 0) ls) = v.
Proof.
  induction 1 as [|l ls Hnin Hnd IH]; intros Hin; [inversion Hin|].
  simpl. destruct (decide (a = l)) as [->|Hne].
  - rewrite sum_indicator_absent by done. lia.
  - apply elem_of_cons in Hin as [?|Hin]; [done|]. rewrite IH by done. lia.
Qed.

Lemma group_sales_nil k : group_sales key k [] = 0.
Proof. done. Qed.

Lemma sum_map_add {A} (f g : A → Z) (l : list A) :
  Series.sum (map (λ x, f x + g x) l)
  = Series.sum (map f l) + Series.sum (map g l).
Proof. induction l as [|x l IH]; simpl; lia. Qed.

(** The group sums over any duplicate-free cover of the labels add up to
    the column total. *)
Lemma partition_sum (ls : list K) df :
  NoDup ls → (∀ r, r ∈ df → key r ∈ ls) →
  Series.sum (map (λ k, group_sales key k df) ls)
  = Series.sum (map Col.sales df).
Proof.
  intros Hnd. induction df as [|r df IH]; intros Hcover.
  - clear Hnd Hcover. induction ls as [|l ls IHl]; [done|].
    cbn [map Series.sum foldr]. change (foldr Z.add 0) with Series.sum.
    by rewrite IHl, group_sales_nil.
  - rewrite (map_ext _ _ (group_sales_cons r df)).
    rewrite (sum_map_add (λ k, if decide (key r = k) then Col.sales r else 0)).
    rewrite sum_indicator; [|done|apply Hcover; left].
    rewrite IH; [done|]. intros r' Hr'. apply Hcover. by right.
Qed.

Lemma groupby_values_sum df :
  Series.sum (Series.values (groupby_sales_sum key df))
  = Series.sum (map Col.sales df).
Proof.
  unfold Series.values, groupby_sales_sum. rewrite map_map. simpl.
  apply partition_sum; [apply labels_NoDup|].
  intros r Hr. apply elem_of_labels. by apply list_elem_of_fmap_2.
Qed.
End groupby_facts.

(** ** Groups as a partition *)

Section partition.
Context {K : Type} `{EqDecision K}.
Variable key : Row → K.

Lemma group_cons r df k :
  group key k (r :: df)
  = if decide (key r = k) then r :: group key k df else group key k df.
Proof.
  unfold group, select. simpl. unfold bool_decide.
  destruct (decide_rel eq (key r) k) as [Heq|Hne].
  - by rewrite decide_True.
  - by rewrite decide_False.
Qed.

Lemma concat_insert_absent (f : K → DataFrame) (ls : list K) a r :
  a ∉ ls →
  concat (map (λ k, if decide (a = k) then r :: f k else f k) ls)
  = concat (map f ls).
Proof.
  induction ls as [|l ls IH]; intros Hnin; [done|]. simpl.
  apply not_elem_of_cons in Hnin as [Hne Hnin].
  rewrite decide_False by done. by rewrite IH.
Qed.

Lemma concat_insert_once (f : K → DataFrame) (ls : list K) a r :
  NoDup ls → a ∈ ls →
  concat (map (λ k, if decide (a = k) then r :: f k else f k) ls)
  ≡ₚ r :: concat (map f ls).
Proof.
  induction 1 as [|l ls Hnin Hnd IH]; intros Hin; [inversion Hin|].
  simpl. destruct (decide (a = l)) as [->|Hne].
  - by rewrite concat_insert_absent.
  - apply elem_of_cons in Hin as [?|Hin]; [done|].
    rewrite IH by done. by rewrite Permutation_middle.
Qed.

(** The groups of a duplicate-free list of labels that covers the rows,
    put together, are the rows. *)
Lemma groups_partition (ls : list K) df :
  NoDup ls → (∀ r, r ∈ df → key r ∈ ls) →
  concat (map (λ k, group key k df) ls) ≡ₚ df.
Proof.
  intros Hnd. induction df as [|r df IH]; intros Hcover.
  - clear. induction ls as [|l ls IHl]; [done|]. simpl. by rewrite IHl.
  - rewrite (map_ext _ _ (group_cons r df)).
    rewrite (concat_insert_once (λ k, group key k df));
      [|done|apply Hcover; left].
    rewrite IH; [done|]. intros r' Hr'. apply Hcover. by right.
Qed.
End partition.

(** ** The first maximum of a series *)

Lemma idxmax_from_split {K} (s : Series.t K) : ∀ (best : K * Z) l1 mid,
  Forall (λ x, snd x < snd best) l1 →
  Forall (λ x, snd x ≤ snd best) mid →
  ∃ l1' v l2',
    l1 ++ best :: mid ++ s = l1' ++ (Series.idxmax_from best s, v) :: l2'
    ∧ Forall (λ x, snd x < v) l1'
    ∧ Forall (λ x, snd x ≤ v) l2'.
Proof.
  induction s as [|kv s IH]; intros best l1 mid Hl1 Hmid; simpl.
  - exists l1, (snd best), mid. rewrite app_nil_r. by destruct best.
  - destruct (snd best <? snd kv) eqn:E.
    + apply Z.ltb_lt in E.
      destruct (IH kv (l1 ++ best :: mid) []) as (l1' & v & l2' & Heq & H1 & H2).
      * apply Forall_app. split; [|constructor; [done|]].
        -- eapply Forall_impl; [exact Hl1|]. simpl. lia.
        -- eapply Forall_impl; [exact Hmid|]. simpl. lia.
      * constructor.
      * exists l1', v, l2'. split; [|done]. rewrite <- Heq.
        by rewrite <- !app_assoc.
    + apply Z.ltb_ge in E.
      destruct (IH best l1 (mid ++ [kv])) as (l1' & v & l2' & Heq & H1 & H2).
      * done.
      * apply Forall_app. split; [done|]. by repeat constructor.
      * exists l1', v, l2'. split; [|done]. rewrite <- Heq.
        by rewrite <- !app_assoc.
Qed.

Lemma idxmax_first_max {K} (s : Series.t K) :
  s ≠ [] →
  ∃ k v l1 l2,
    Series.idxmax s = Ok k ∧ s = l1 ++ (k, v) :: l2
    ∧ Forall (λ x, snd x < v) l1 ∧ Forall (λ x, snd x ≤ v) l2.
Proof.
  destruct s as [|kv s]; [done|]. intros _.
  destruct (idxmax_from_split s kv [] []) as (l1 & v & l2 & Heq & H1 & H2);
    [constructor..|].
  exists (Series.idxmax_from kv s), v, l1, l2. by simpl in *.
Qed.

Section idxmax_groupby.
Context {K : Type} `{KeyOrdLaws K} `{EqDecision K}.
Variable key : Row → K.

Lemma key_leb_refl (a : K) : key_leb a a = true.
Proof. by destruct (key_leb_total a a). Qed.

Lemma groupby_nonempty df : df ≠ [] → groupby_sales_sum key df ≠ [].
Proof.
  intros Hne Hnil. apply Hne.
  apply (f_equal Series.index) in Hnil. rewrite groupby_index in Hnil.
  apply labels_nil_inv in Hnil. by destruct df.
Qed.

Lemma idxmax_groupby df :
  df ≠ [] →
  ∃ k, Series.idxmax (groupby_sales_sum key df) = Ok k ∧ first_argmax key df k.
Proof.
  intros Hne.
  destruct (idxmax_first_max (groupby_sales_sum key df))
    as (k & v & l1 & l2 & Hidx & Hsplit & Hl1 & Hl2);
    [by apply groupby_nonempty|].
  exists k. split; [done|].
  assert ((k, v) ∈ groupby_sales_sum key df) as Hkv.
  { rewrite Hsplit. apply elem_of_app. right. left. }
  apply elem_of_groupby in Hkv as [Hk ->].
  split; [done|]. intros r Hr.
  assert ((key r, group_sales key (key r) df) ∈ groupby_sales_sum key df)
    as Hin by (apply elem_of_groupby; eauto).
  pose proof (labels_sorted (map key df)) as Hsorted.
  rewrite <- groupby_index, Hsplit in Hsorted.
  unfold Series.index in Hsorted. rewrite map_app in Hsorted. simpl in Hsorted.
  apply StronglySorted_app_1_r, StronglySorted_inv in Hsorted as [_ Hafter].
  rewrite Hsplit in Hin.
  apply elem_of_app in Hin as [Hin|Hin].
  - eapply Forall_forall in Hl1; [|exact Hin]. simpl in Hl1. lia.
  - apply elem_of_cons in Hin as [Heq|Hin].
    + injection Heq as -> _. split; [lia|]. intros _. apply key_leb_refl.
    + split.
      * eapply Forall_forall in Hl2; [|exact Hin]. simpl in Hl2. lia.
      * intros _. eapply Forall_forall in Hafter.
        -- destruct Hafter as [Hle _]. exact Hle.
        -- change (key r) with (fst (key r, group_sales key (key r) df)).
           by apply list_elem_of_fmap_2.
Qed.
End idxmax_groupby.

Lemma top_category_first_argmax df :
  df ≠ [] → ∃ c, top_category df = Ok c ∧ first_argmax Col.category df c.
Proof.
  intros Hne. unfold top_category. destruct df; [done|]. simpl negb. cbv iota.
  by apply idxmax_groupby.
Qed.

Lemma top_city_first_argmax df :
  df ≠ [] → ∃ c, top_city df = Ok c ∧ first_argmax Col.city df c.
Proof.
  intros Hne. unfold top_city. destruct df; [done|]. simpl negb. cbv iota.
  by apply idxmax_groupby.
Qed.

Lemma metrics_ok df : ∃ cards, metrics df = Ok cards.
Proof.
  destruct (decide (df = [])) as [->|Hne]; [by eexists|].
  destruct (top_category_first_argmax df Hne) as (c1 & H1 & _).
  destruct (top_city_first_argmax df Hne) as (c2 & H2 & _).
  unfold metrics. rewrite H1, H2. by eexists.
Qed.

(** ** The store *)

Lemma returns_bind {A B} (m : M A) (f : A → M B) h
    (P : A → gmap loc object → Prop) (Q : B → gmap loc object → Prop) :
  returns m h P →
  (∀ a h', h ⊆ h' → P a h' → returns (f a) h' Q) →
  returns (m ≫= f) h Q.
Proof.
  intros (a & h1 & Hm & Hsub & HP) Hf.
  destruct (Hf a h1 Hsub HP) as (b & h2 & Hfa & Hsub' & HQ).
  exists b, h2. unfold mbind, M_bind. rewrite Hm.
  split; [done|]. split; [by etrans|done].
Qed.

Lemma returns_mret {A} (a : A) h (P : A → gmap loc object → Prop) :
  P a h → returns (mret a) h P.
Proof. intros HP. by exists a, h. Qed.

Lemma returns_alloc o h :
  returns (alloc o) h (λ l h', h' !! l = Some o ∧ h !! l = None
                               ∧ h' = <[l := o]> h).
Proof.
  assert (h !! fresh (dom h) = None) as Hfresh
    by apply not_elem_of_dom, is_fresh.
  exists (fresh (dom h)), (<[fresh (dom h) := o]> h).
  split; [done|]. split; [by apply insert_subseteq|].
  by rewrite lookup_insert_eq.
Qed.

Lemma returns_read_frame l rows h :
  h !! l = Some (ODataFrame rows) →
  returns (read_frame l) h (λ rows' h', rows' = rows ∧ h' = h).
Proof.
  intros Hl. exists rows, h. unfold read_frame. by rewrite Hl.
Qed.

Lemma returns_getitem l mask rows h :
  h !! l = Some (ODataFrame rows) →
  returns (getitem l mask) h
    (λ l' h', h' !! l' = Some (ODataFrame (select mask rows))).
Proof.
  intros Hl. unfold getitem.
  eapply returns_bind; [by apply returns_read_frame|].
  intros rows' h' _ [-> ->].
  destruct (returns_alloc (ODataFrame (select mask rows)) h)
    as (l' & h' & Ha & Hsub & Hl' & _).
  by exists l', h'.
Qed.

Lemma returns_copy l rows h :
  h !! l = Some (ODataFrame rows) →
  returns (copy l) h (λ l' h', h' !! l' = Some (ODataFrame rows)).
Proof.
  intros Hl. unfold copy.
  eapply returns_bind; [by apply returns_read_frame|].
  intros rows' h' _ [-> ->].
  destruct (returns_alloc (ODataFrame rows) h) as (l' & h' & Ha & Hsub & Hl' & _).
  by exists l', h'.
Qed.

Lemma returns_guarded_getitem (c : bool) l mask rows h :
  h !! l = Some (ODataFrame rows) →
  returns (if c then getitem l mask else mret l) h
    (λ l' h', h' !! l' = Some (ODataFrame (if c then select mask rows else rows))).
Proof.
  intros Hl. destruct c; [by apply returns_getitem | by apply returns_mret].
Qed.

Lemma returns_filter_data df t spec h :
  h !! df = Some (ODataFrame t) →
  returns (filter_data df spec) h
    (λ l h', h' !! l = Some (ODataFrame (df_filtered t spec))).
Proof.
  intros Hdf. unfold filter_data, df_filtered.
  eapply returns_bind; [by apply returns_copy|]. cbv beta.
  intros l0 h0 _ Hl0.
  eapply returns_bind; [by apply returns_guarded_getitem|]. cbv beta.
  intros l1 h1 _ Hl1.
  eapply returns_bind; [by apply returns_guarded_getitem|]. cbv beta.
  intros l2 h2 _ Hl2.
  eapply returns_bind; [by apply returns_guarded_getitem|]. cbv beta.
  intros l3 h3 _ Hl3.
  by apply returns_getitem.
Qed.

(** The Trends page: the grouped frame is built, its label column is
    rewritten in place, and the chart gets the months as text, in order. *)
Lemma returns_page_trends argsort cat l rows h :
  h !! l = Some (ODataFrame rows) →
  returns (page argsort Trends cat l) h
    (λ shown _,
       shown = PTrends (map (λ pv, (CStr (period_str (fst pv)), snd pv))
                          (trend rows))).
Proof.
  intros Hl. unfold page, returns, mbind, M_bind, read_frame.
  rewrite Hl. unfold alloc.
  set (lt := fresh (dom h)).
  assert (h !! lt = None) as Hfresh by apply not_elem_of_dom, is_fresh.
  unfold setitem_astype_str. rewrite lookup_insert_eq.
  unfold read_grouped. rewrite lookup_insert_eq.
  eexists _, _. split; [reflexivity|]. split.
  - rewrite insert_insert_eq. by apply insert_subseteq.
  - unfold mret, M_ret. by rewrite map_map.
Qed.

Lemma returns_page argsort selected cat l rows h :
  h !! l = Some (ODataFrame rows) →
  returns (page argsort selected cat l) h (λ _ _, True).
Proof.
  intros Hl. destruct selected;
    try (unfold page, returns, mbind, M_bind, read_frame; rewrite Hl;
         by eexists _, h).
  destruct (returns_page_trends argsort cat l rows h Hl) as (a & h' & ? & ? & _).
  by exists a, h'.
Qed.

Lemma returns_app argsort df t spec selected cat h :
  h !! df = Some (ODataFrame t) →
  returns (app argsort df spec selected cat) h
    (λ out _, metrics (df_filtered t spec) = Ok (fst out)).
Proof.
  intros Hdf. unfold app.
  eapply returns_bind; [by apply returns_filter_data|]. cbv beta.
  intros l h1 _ Hl.
  eapply returns_bind; [by apply returns_read_frame|]. cbv beta.
  intros rows h2 _ [-> ->].
  destruct (metrics_ok (df_filtered t spec)) as [cards Hcards].
  eapply (returns_bind _ _ _ (λ c h', c = cards ∧ h' = h1)).
  { exists cards, h1. unfold lift. by rewrite Hcards. }
  intros ? ? _ [-> ->].
  eapply returns_bind; [by eapply returns_page|]. cbv beta.
  intros shown h3 _ _. by apply returns_mret.
Qed.

(** ** Positional take and the descending sort *)

Section take_facts.
Context {A : Type}.
Implicit Types (l : list A) (indexer : list nat).

Lemma take_nil indexer : Series.take (@nil A) indexer = [].
Proof. induction indexer as [|i indexer IH]; [done|]. by simpl. Qed.

Lemma take_cons_S x l indexer :
  Series.take (x :: l) (S <$> indexer) = Series.take l indexer.
Proof.
  unfold Series.take. induction indexer as [|i indexer IH]; [done|].
  csimpl. by rewrite IH.
Qed.

Lemma take_seq l : Series.take l (seq 0 (length l)) = l.
Proof.
  induction l as [|x l IH]; [done|].
  simpl length. simpl seq. rewrite <- fmap_S_seq.
  unfold Series.take at 1. csimpl.
  fold (Series.take (x :: l) (S <$> seq 0 (length l))).
  by rewrite take_cons_S, IH.
Qed.

Lemma take_Permutation l indexer indexer' :
  indexer ≡ₚ indexer' → Series.take l indexer ≡ₚ Series.take l indexer'.
Proof. unfold Series.take. by intros ->. Qed.

Lemma take_reverse l indexer :
  Series.take l (reverse indexer) = reverse (Series.take l indexer).
Proof.
  unfold Series.take. induction indexer as [|i indexer IH]; [done|].
  rewrite reverse_cons, omap_app, IH. csimpl.
  destruct (l !! i); csimpl; [by rewrite reverse_cons | by rewrite app_nil_r].
Qed.

Lemma take_ext l (k : list A) indexer :
  Forall (λ i, l !! i = k !! i) indexer →
  Series.take l indexer = Series.take k indexer.
Proof.
  unfold Series.take. induction 1 as [|i indexer Hi _ IH]; [done|].
  csimpl. by rewrite Hi, IH.
Qed.

Lemma take_length l indexer :
  Forall (λ i, (i < length l)%nat) indexer →
  length (Series.take l indexer) = length indexer.
Proof.
  unfold Series.take. induction 1 as [|i indexer Hi _ IH]; [done|].
  csimpl. destruct (lookup_lt_is_Some_2 l i Hi) as [x ->]. simpl. by rewrite IH.
Qed.
End take_facts.

Lemma take_fmap {A B} (f : A → B) (l : list A) indexer :
  Series.take (f <$> l) indexer = f <$> Series.take l indexer.
Proof.
  unfold Series.take. induction indexer as [|i indexer IH]; [done|].
  csimpl. rewrite list_lookup_fmap, IH. by destruct (l !! i).
Qed.

(** Reading [l] through the reversed positions is reading [reverse l]. *)
Lemma take_take_reversed_positions {A} (l : list A) indexer :
  Forall (λ i, (i < length l)%nat) indexer →
  Series.take l (Series.take (reverse (seq 0 (length l))) indexer)
  = Series.take (reverse l) indexer.
Proof.
  unfold Series.take. induction 1 as [|i indexer Hi _ IH]; [done|].
  csimpl. rewrite reverse_lookup by (by rewrite length_seq).
  rewrite length_seq, lookup_seq_lt by lia. csimpl.
  rewrite IH, (reverse_lookup l i) by done. done.
Qed.

Lemma argsort_in_range argsort vs :
  argsort_contract argsort →
  Forall (λ i, (i < length vs)%nat) (argsort vs).
Proof.
  intros Hc. destruct (Hc vs) as [Hperm _].
  apply Forall_forall. intros i Hi. rewrite Hperm in Hi.
  apply elem_of_seq in Hi. lia.
Qed.

Section sort_values.
Variable argsort : list Z → list nat.
Hypothesis argsort_ok : argsort_contract argsort.

Lemma nargsort_desc_Permutation vs :
  Series.nargsort_desc argsort vs ≡ₚ seq 0 (length vs).
Proof.
  unfold Series.nargsort_desc. rewrite reverse_Permutation.
  destruct (argsort_ok (reverse vs)) as [Hperm _].
  rewrite (take_Permutation _ _ _ Hperm), length_reverse.
  pose proof (take_seq (reverse (seq 0 (length vs)))) as Htake.
  rewrite length_reverse, length_seq in Htake. rewrite Htake.
  apply reverse_Permutation.
Qed.

Lemma sort_values_desc_Permutation {K} (s : Series.t K) :
  Series.sort_values_desc argsort s ≡ₚ s.
Proof.
  unfold Series.sort_values_desc.
  rewrite (take_Permutation _ _ _ (nargsort_desc_Permutation _)).
  unfold Series.values. by rewrite length_map, take_seq.
Qed.

Lemma sort_values_desc_values {K} (s : Series.t K) :
  Series.values (Series.sort_values_desc argsort s)
  = reverse (Series.take (reverse (Series.values s))
               (argsort (reverse (Series.values s)))).
Proof.
  unfold Series.sort_values_desc, Series.nargsort_desc.
  unfold Series.values at 1.
  change (map snd ?l) with (snd <$> l).
  rewrite <- take_fmap, take_reverse. f_equal.
  change (snd <$> s) with (Series.values s).
  apply take_take_reversed_positions.
  rewrite <- (length_reverse (Series.values s)).
  by apply argsort_in_range.
Qed.

Lemma sort_values_desc_descending {K} (s : Series.t K) :
  descending (Series.values (Series.sort_values_desc argsort s)).
Proof.
  rewrite sort_values_desc_values.
  destruct (argsort_ok (reverse (Series.values s))) as [_ Hsorted].
  apply Sorted_reverse in Hsorted.
  apply Sorted.Sorted_StronglySorted.
  - intros x y z. lia.
  - clear -Hsorted. induction Hsorted as [|x l _ IH Hhd]; constructor; [done|].
    destruct Hhd; constructor. unfold flip in *. lia.
Qed.
End sort_values.

(** ** Rankings *)

Section rankings_facts.
Variable argsort : list Z → list nat.
Hypothesis argsort_ok : argsort_contract argsort.
Variable key : Row → string.

Lemma ranking_is_ranking df :
  is_ranking key df
    (Series.head 10
       (Series.sort_values_desc argsort (groupby_sales_sum key df))).
Proof.
  set (g := groupby_sales_sum key df).
  set (sorted := Series.sort_values_desc argsort g).
  assert (sorted ≡ₚ g) as Hperm by by apply sort_values_desc_Permutation.
  assert (descending (Series.values sorted)) as Hdesc
    by by apply sort_values_desc_descending.
  unfold Series.head.
  rewrite <- (take_drop 10 sorted) in Hdesc.
  unfold descending, Series.values in Hdesc. rewrite map_app in Hdesc.
  split; [|split; [|split; [|split]]].
  - rewrite length_take, (Permutation_length Hperm).
    unfold g. by rewrite groupby_length.
  - by apply StronglySorted_app_1_l in Hdesc.
  - intros k v Hin. apply (subseteq_take 10 sorted) in Hin.
    rewrite Hperm in Hin. by apply elem_of_groupby in Hin.
  - unfold Series.index. change (map fst ?l) with (fst <$> l).
    rewrite fmap_take.
    eapply sublist_NoDup; [|apply sublist_take].
    rewrite Hperm. change (fst <$> g) with (Series.index g).
    unfold g. rewrite groupby_index. apply labels_NoDup.
  - exists (drop 10 sorted). split; [by rewrite take_drop|].
    intros x y Hx Hy. apply Z.ge_le.
    eapply (StronglySorted_app_1_elem_of _ _ _ _ _ Hdesc).
    + by apply (list_elem_of_fmap_2 snd).
    + by apply (list_elem_of_fmap_2 snd).
Qed.
End rankings_facts.

(** ** The insertion kernels meet the argsort contract *)

Section insertion_kernel.
Variable later_first : bool.
Variable vs : list Z.

Local Abbreviation before := (before vs).

Lemma argsort_insert_Permutation i sorted :
  argsort_insert later_first vs i sorted ≡ₚ i :: sorted.
Proof.
  induction sorted as [|j rest IH]; simpl; [done|].
  destruct (_ || _); [done|]. rewrite IH. apply Permutation_swap.
Qed.

Lemma argsort_insert_sorted i sorted :
  StronglySorted before sorted →
  StronglySorted before (argsort_insert later_first vs i sorted).
Proof.
  induction 1 as [|j rest Hrest IH Hj]; simpl; [repeat constructor|].
  destruct (_ || _) eqn:E.
  - constructor; [by constructor|].
    assert (before i j) as Hij.
    { unfold before. apply orb_true_iff in E as [E|E].
      - apply Z.ltb_lt in E. lia.
      - apply andb_true_iff in E as [E _]. apply Z.eqb_eq in E. lia. }
    constructor; [done|].
    eapply Forall_impl; [exact Hj|]. unfold before in *. intros k. lia.
  - constructor; [done|]. apply orb_false_iff in E as [E _].
    apply Z.ltb_ge in E.
    rewrite argsort_insert_Permutation. by constructor.
Qed.

Lemma argsort_fold_Permutation positions acc :
  foldl (λ acc i, argsort_insert later_first vs i acc) acc positions
  ≡ₚ positions ++ acc.
Proof.
  revert acc. induction positions as [|i positions IH]; intros acc; [done|].
  simpl. rewrite IH, argsort_insert_Permutation.
  by rewrite Permutation_middle.
Qed.

Lemma argsort_fold_sorted positions acc :
  StronglySorted before acc →
  StronglySorted before
    (foldl (λ acc i, argsort_insert later_first vs i acc) acc positions).
Proof.
  revert acc. induction positions as [|i positions IH]; intros acc Hacc;
    [done|].
  simpl. by apply IH, argsort_insert_sorted.
Qed.

Lemma take_sorted_positions positions :
  Forall (λ i, (i < length vs)%nat) positions →
  StronglySorted before positions →
  Sorted Z.le (Series.take vs positions).
Proof.
  intros Hrange Hsorted. apply StronglySorted_Sorted.
  unfold Series.take.
  induction Hsorted as [|i rest Hrest IH Hi]; [constructor|].
  apply Forall_cons in Hrange as [Hlt Hrange]. csimpl.
  rewrite (list_lookup_lookup_total_lt vs i Hlt). simpl.
  constructor; [by apply IH|].
  apply Forall_forall. intros v Hv.
  apply list_elem_of_omap in Hv as (k & Hk & Hvk).
  eapply Forall_forall in Hi; [|exact Hk]. unfold before in Hi.
  by rewrite (list_lookup_total_correct _ _ _ Hvk) in Hi.
Qed.
End insertion_kernel.

Lemma argsort_by_insertion_contract later_first :
  argsort_contract (argsort_by_insertion later_first).
Proof.
  intros vs. unfold argsort_by_insertion.
  pose proof (argsort_fold_Permutation later_first vs (seq 0 (length vs)) [])
    as Hperm.
  rewrite app_nil_r in Hperm. split; [done|].
  apply take_sorted_positions.
  - apply Forall_forall. intros i Hi. rewrite Hperm in Hi.
    apply elem_of_seq in Hi. lia.
  - apply argsort_fold_sorted. constructor.
Qed.

(** ** The aggregations *)

Lemma StronglySorted_weaken {A} (R1 R2 : relation A) (l : list A) :
  (∀ x y, R1 x y → R2 x y) → StronglySorted R1 l → StronglySorted R2 l.
Proof.
  intros Hweak. induction 1 as [|x l _ IH Hx]; constructor; [done|].
  eapply Forall_impl; [exact Hx|]. apply Hweak.
Qed.

Lemma key_lt_period_lt (p q : Period) : key_lt p q → period_lt p q.
Proof.
  intros [Hle Hne]. apply period_leb_iff in Hle as [?| ->]; [done|].
  by destruct Hne.
Qed.

(** ** Ties under a stable kernel *)

Lemma take_lookup {A} (l : list A) indexer i :
  Forall (λ p, (p < length l)%nat) indexer →
  Series.take l indexer !! i = indexer !! i ≫= (λ p, l !! p).
Proof.
  unfold Series.take. intros Hrange. revert i.
  induction Hrange as [|p indexer Hp _ IH]; intros i; [done|].
  csimpl. destruct (lookup_lt_is_Some_2 l p Hp) as [x Hx]. rewrite Hx.
  destruct i as [|i]; simpl; [done|]. apply IH.
Qed.

Section stable_kernel.
Variable argsort : list Z → list nat.
Hypothesis argsort_ok : argsort_contract argsort.
Hypothesis stable : argsort_stable argsort.

Lemma nargsort_desc_in_range vs :
  Forall (λ p, (p < length vs)%nat) (Series.nargsort_desc argsort vs).
Proof.
  apply Forall_forall. intros p Hp.
  rewrite (nargsort_desc_Permutation argsort argsort_ok) in Hp.
  apply elem_of_seq in Hp. lia.
Qed.

(** Where the descending indexer reads position [i] from. *)
Lemma nargsort_desc_lookup vs i p :
  Series.nargsort_desc argsort vs !! i = Some p →
  ∃ q, argsort (reverse vs) !! (length vs - S i)%nat = Some q
       ∧ p = (length vs - S q)%nat ∧ (q < length vs)%nat
       ∧ (i < length vs)%nat.
Proof.
  unfold Series.nargsort_desc. intros Hi.
  pose proof (argsort_in_range argsort (reverse vs) argsort_ok) as Hrange.
  rewrite length_reverse in Hrange.
  assert (length (Series.take (reverse (seq 0 (length vs)))
                    (argsort (reverse vs))) = length vs) as Hlen.
  { rewrite take_length.
    - destruct (argsort_ok (reverse vs)) as [Hperm _].
      by rewrite (Permutation_length Hperm), length_seq, length_reverse.
    - by rewrite length_reverse, length_seq. }
  apply reverse_lookup_Some in Hi as [Hi Hlt]. rewrite Hlen in Hi, Hlt.
  rewrite take_lookup in Hi by (by rewrite length_reverse, length_seq).
  destruct (argsort (reverse vs) !! (length vs - S i)%nat) as [q|] eqn:Hq;
    [|done].
  simpl in Hi. exists q.
  apply reverse_lookup_Some in Hi as [Hi Hq']. rewrite length_seq in Hi, Hq'.
  apply lookup_seq in Hi as [-> _]. done.
Qed.

Lemma sort_values_desc_stable {K} (s : Series.t K) :
  ties_keep_grouping_order s (Series.sort_values_desc argsort s).
Proof.
  intros i j x y Hij Hx Hy Hxy. unfold Series.sort_values_desc in Hx, Hy.
  pose proof (nargsort_desc_in_range (Series.values s)) as Hrange.
  assert (length (Series.values s) = length s) as Hlen
    by (unfold Series.values; by rewrite length_map).
  rewrite Hlen in Hrange.
  rewrite take_lookup in Hx, Hy by done.
  destruct (Series.nargsort_desc argsort (Series.values s) !! i)
    as [pi|] eqn:Hpi; [|done].
  destruct (Series.nargsort_desc argsort (Series.values s) !! j)
    as [pj|] eqn:Hpj; [|done].
  simpl in Hx, Hy. exists pi, pj. split; [|done].
  apply nargsort_desc_lookup in Hpi as (qi & Hqi & -> & Hqi_lt & Hi).
  apply nargsort_desc_lookup in Hpj as (qj & Hqj & -> & Hqj_lt & Hj).
  rewrite Hlen in *.
  assert (qj < qi)%nat; [|lia].
  eapply (stable (reverse (Series.values s)) (length s - S j)%nat
            (length s - S i)%nat);
    [lia|done|done|].
  rewrite !reverse_lookup by (rewrite Hlen; lia). rewrite Hlen.
  unfold Series.values. change (map snd s) with (snd <$> s).
  rewrite !list_lookup_fmap, Hx, Hy. simpl. by rewrite Hxy.
Qed.

Lemma ranking_stable {K} (s : Series.t K) n :
  ties_keep_grouping_order s
    (Series.head n (Series.sort_values_desc argsort s)).
Proof.
  intros i j x y Hij Hx Hy Hxy. unfold Series.head in Hx, Hy.
  apply lookup_take_Some in Hx as [Hx _].
  apply lookup_take_Some in Hy as [Hy _].
  by eapply sort_values_desc_stable.
Qed.
End stable_kernel.

(** The insertion kernel that keeps earlier positions first is stable. *)
Section insertion_stable.
Variable vs : list Z.

Local Abbreviation earlier := (earlier vs).

Lemma argsort_insert_earlier i sorted :
  Forall (λ p, (p < i)%nat) sorted →
  StronglySorted earlier sorted →
  StronglySorted earlier (argsort_insert false vs i sorted).
Proof.
  intros Hbelow Hsorted.
  induction Hsorted as [|j rest Hrest IH Hj]; simpl; [repeat constructor|].
  apply Forall_cons in Hbelow as [Hji Hbelow].
  rewrite andb_false_r, orb_false_r.
  destruct (vs !!! i <? vs !!! j) eqn:E.
  - apply Z.ltb_lt in E. constructor; [by constructor|].
    constructor; [by left|].
    eapply Forall_impl; [exact Hj|]. unfold earlier. intros k. lia.
  - apply Z.ltb_ge in E. constructor; [by apply IH|].
    rewrite argsort_insert_Permutation. constructor; [|done].
    unfold earlier. lia.
Qed.

Lemma argsort_fold_earlier n : ∀ start acc,
  Forall (λ p, (p < start)%nat) acc →
  StronglySorted earlier acc →
  StronglySorted earlier
    (foldl (λ acc i, argsort_insert false vs i acc) acc (seq start n)).
Proof.
  induction n as [|n IH]; intros start acc Hbelow Hsorted; [done|].
  simpl. apply IH.
  - rewrite argsort_insert_Permutation. constructor; [lia|].
    eapply Forall_impl; [exact Hbelow|]. simpl. lia.
  - by apply argsort_insert_earlier.
Qed.

Lemma strongly_sorted_lookup {A} (R : relation A) (l : list A) a b x y :
  StronglySorted R l → (a < b)%nat → l !! a = Some x → l !! b = Some y →
  R x y.
Proof.
  intros Hsorted. revert a b.
  induction Hsorted as [|z l _ IH Hz]; intros a b Hab Ha Hb; [done|].
  destruct b as [|b]; [lia|]. simpl in Hb.
  destruct a as [|a]; simpl in Ha.
  - injection Ha as ->. eapply Forall_forall in Hz; [done|].
    by eapply list_elem_of_lookup_2.
  - eapply (IH a b); [lia|done..].
Qed.
End insertion_stable.

Lemma argsort_by_insertion_stable : argsort_stable (argsort_by_insertion false).
Proof.
  intros vs a b pa pb Hab Ha Hb Heq. unfold argsort_by_insertion in Ha, Hb.
  pose proof (argsort_fold_earlier vs (length vs) 0 [] (Forall_nil_2 _)
                (SSorted_nil _)) as Hsorted.
  pose proof (strongly_sorted_lookup _ _ _ _ _ _ Hsorted Hab Ha Hb) as [Hlt|[_ ?]];
    [|done].
  destruct (argsort_by_insertion_contract false vs) as [Hperm _].
  unfold argsort_by_insertion in Hperm.
  assert (pa < length vs)%nat as Hpa.
  { apply list_elem_of_lookup_2 in Ha. rewrite Hperm in Ha.
    apply elem_of_seq in Ha. lia. }
  assert (pb < length vs)%nat as Hpb.
  { apply list_elem_of_lookup_2 in Hb. rewrite Hperm in Hb.
    apply elem_of_seq in Hb. lia. }
  rewrite !list_lookup_lookup_total_lt in Heq by done.
  injection Heq as Heq. lia.
Qed.

(** The register network orders every column of zeros and ones of up to
    eight values, and answers with each position once. *)
Example argsort_simd_orders_bit_columns :
  forallb (λ n, forallb (λ vs, is_argsort_of vs (argsort_simd vs))
                  (bit_columns n))
          (seq 0 9) = true.
Proof. vm_compute. reflexivity. Qed.

(** ** The worked scenarios of the design document *)

Example scenario_all_regions_2023 :
  let view := df_filtered sample_table year_2023 in
  total_sales view = 150
  ∧ reg_sales view = [("East", 100); ("West", 50)]
  ∧ trend view = [(mkPeriod 2023 1, 100); (mkPeriod 2023 2, 50)].
Proof. repeat split. Qed.

Example scenario_region_east :
  let view := df_filtered sample_table
                (mkFilterSpec "East" All All (date 2023 1 1) (date 2023 12 31)) in
  view = [east_row] ∧ total_sales view = 100
  ∧ top_city view = Ok "Albany" ∧ order_count view = 1.
Proof. repeat split. Qed.

Example scenario_no_row_in_range :
  let view := df_filtered sample_table
                (mkFilterSpec All All All (date 2024 1 1) (date 2024 12 31)) in
  metrics view = Ok empty_cards ∧ trend view = [].
Proof. repeat split. Qed.

Example scenario_trends_page :
  ∃ h', app (argsort_by_insertion false) 0%nat year_2023 Trends All
          {[ 0%nat := ODataFrame sample_table ]}
        = Ok (([ ("Total Sales", Dollars 150); ("Qty Sold", Number 2);
                 ("Total Profit", Dollars 0); ("Top Category", Text "Furniture");
                 ("Top City", Text "Albany"); ("Orders", Number 2) ],
               PTrends [(CStr "2023-01", 100); (CStr "2023-02", 50)]), h').
Proof. eexists. vm_compute. reflexivity. Qed.

(** ** Properties of the pipeline *)

(** C1. The filtered frame is the one-pass filter by the conjunction of the
    active predicates: it is a subsequence of the table (same rows, same
    order), a row is kept exactly when the region, state and city equalities
    that are not switched off by ["All"] and the inclusive date range all
    hold, and every row of the table is kept or dropped by that test alone. *)
Theorem filter_keeps_exactly_the_conjunction (df : DataFrame) (spec : FilterSpec) :
  df_filtered df spec = filter_spec df spec
  ∧ sublist (df_filtered df spec) df
  ∧ (∀ r, satisfies spec r = true ↔ active_predicates spec r)
  ∧ (∀ r, r ∈ df_filtered df spec ↔ r ∈ df ∧ active_predicates spec r).
Proof.
  split; [apply df_filtered_filter_spec|].
  split; [rewrite df_filtered_filter_spec; apply select_sublist|].
  split; [apply satisfies_active|].
  intros r. rewrite df_filtered_filter_spec. unfold filter_spec.
  change (List.filter (satisfies spec) df) with (select (satisfies spec) df).
  by rewrite elem_of_select, satisfies_active.
Qed.

(** C2. On the empty selection nothing raises and every aggregation gives
    its fallback: the three totals and the order count are 0, top category
    and top city are ["-"], the trend has no point, the average shipping
    time shows ["-"], every chart series is empty, and each page of the
    script runs to completion. *)
Theorem empty_view_degrades (argsort : list Z → list nat) (cat : string) :
  metrics [] = Ok empty_cards
  ∧ total_sales [] = 0 ∧ total_quantity [] = 0 ∧ total_profit [] = 0
  ∧ order_count [] = 0
  ∧ top_category [] = Ok "-" ∧ top_city [] = Ok "-"
  ∧ trend [] = []
  ∧ avg_ship [] = None ∧ avg_ship_metric [] = Text "-"
  ∧ cat_sales [] = [] ∧ reg_sales [] = [] ∧ ship_mode [] = []
  ∧ subcat_sales argsort cat [] = []
  ∧ top_products argsort [] = []
  ∧ state_sales argsort [] = []
  ∧ city_sales argsort [] = []
  ∧ (∀ selected l h, h !! l = Some (ODataFrame []) →
       ∃ shown h', page argsort selected cat l h = Ok (shown, h')).
Proof.
  repeat (split; [reflexivity|]).
  split.
  { unfold subcat_sales. destruct (String.eqb cat All); apply take_nil. }
  assert (∀ K, Series.head 10 (Series.sort_values_desc argsort (@nil (K * Z)))
               = []) as Hnil.
  { intros K. unfold Series.sort_values_desc. by rewrite take_nil. }
  split; [apply Hnil|]. split; [apply Hnil|]. split; [apply Hnil|].
  intros selected l h Hl.
  destruct (returns_page argsort selected cat l [] h Hl) as (a & h' & ? & _).
  by exists a, h'.
Qed.

(** C3, as the claim states it, does not hold. Of four cities the two
    largest, Camden and Dover, have the same sales. The grouping step lists
    Camden before Dover and the Top City card says Camden, but the
    vectorised argsort answers the reversed column 300, 300, 200, 100 with
    the positions 3, 2, 1, 0, and the ranking lists Dover before Camden.
    (On the two tied cities of [tied_table] the same kernel keeps the
    order of the grouping step.) *)
Lemma ranking_ties_not_stable :
  groupby_sales_sum Col.city four_cities
  = [("Albany", 100); ("Boston", 200); ("Camden", 300); ("Dover", 300)]
  ∧ argsort_simd [300; 300; 200; 100] = [3; 2; 1; 0]%nat
  ∧ city_sales argsort_simd four_cities
    = [("Dover", 300); ("Camden", 300); ("Boston", 200); ("Albany", 100)]
  ∧ top_city four_cities = Ok "Camden"
  ∧ city_sales argsort_simd tied_table = [("Albany", 100); ("Fresno", 100)]
  ∧ ¬ ties_keep_grouping_order
        (groupby_sales_sum Col.city four_cities)
        (city_sales argsort_simd four_cities).
Proof.
  repeat (split; [reflexivity|]).
  intros Hties.
  destruct (Hties 0%nat 1%nat ("Dover", 300) ("Camden", 300))
    as (i' & j' & Hlt & Hi & Hj); [lia|reflexivity..|].
  destruct i' as [|[|[|[|i']]]]; try discriminate.
  destruct j' as [|[|[|[|j']]]]; try discriminate. lia.
Qed.

(** C3, amended. For every argsort kernel that meets the contract of the
    default sort kind, the product, state and city rankings each have
    min(10, number of distinct labels) entries, descending values, only
    groups of the view with their sums, and leave out no larger group; the
    order of tied labels is the kernel's: it is the order of the grouping
    step whenever the kernel is stable. *)
Theorem rankings_are_top10 (argsort : list Z → list nat) (df : DataFrame) :
  argsort_contract argsort →
  is_ranking Col.product_name df (top_products argsort df)
  ∧ is_ranking Col.state df (state_sales argsort df)
  ∧ is_ranking Col.city df (city_sales argsort df)
  ∧ (argsort_stable argsort →
       ties_keep_grouping_order
         (groupby_sales_sum Col.product_name df) (top_products argsort df)
       ∧ ties_keep_grouping_order
           (groupby_sales_sum Col.state df) (state_sales argsort df)
       ∧ ties_keep_grouping_order
           (groupby_sales_sum Col.city df) (city_sales argsort df)).
Proof.
  intros Hok.
  split; [by apply ranking_is_ranking|].
  split; [by apply ranking_is_ranking|].
  split; [by apply ranking_is_ranking|].
  intros Hstable. unfold top_products, state_sales, city_sales.
  split; [|split]; by apply ranking_stable.
Qed.

Lemma rankings_are_top10_witness :
  is_ranking Col.product_name tied_table
    (top_products (argsort_by_insertion false) tied_table)
  ∧ is_ranking Col.state tied_table
      (state_sales (argsort_by_insertion false) tied_table)
  ∧ is_ranking Col.city tied_table
      (city_sales (argsort_by_insertion false) tied_table)
  ∧ (argsort_stable (argsort_by_insertion false) →
       ties_keep_grouping_order
         (groupby_sales_sum Col.product_name tied_table)
         (top_products (argsort_by_insertion false) tied_table)
       ∧ ties_keep_grouping_order
           (groupby_sales_sum Col.state tied_table)
           (state_sales (argsort_by_insertion false) tied_table)
       ∧ ties_keep_grouping_order
           (groupby_sales_sum Col.city tied_table)
           (city_sales (argsort_by_insertion false) tied_table)).
Proof.
  apply (rankings_are_top10 (argsort_by_insertion false) tied_table).
  apply argsort_by_insertion_contract.
Defined.

(** C4. With region, state and city left at ["All"] and the date range set
    to the earliest and latest order date of the table, the filter returns
    the table itself, row for row. *)
Theorem all_pass_filter_is_identity (df : DataFrame) (spec : FilterSpec) :
  region spec = All → state spec = All → city spec = All →
  (df ≠ [] → min_date df = Some (start_date spec)
             ∧ max_date df = Some (end_date spec)) →
  df_filtered df spec = df.
Proof.
  intros Hr Hs Hc Hrange. rewrite df_filtered_filter_spec. unfold filter_spec.
  change (List.filter (satisfies spec) df) with (select (satisfies spec) df).
  apply select_all. intros r Hin.
  destruct Hrange as [Hmin Hmax]; [by intros ->; inversion Hin|].
  apply satisfies_active. unfold active_predicates.
  repeat split; try done.
  - eapply col_min_lower; [exact Hmin|]. by apply list_elem_of_fmap_2.
  - eapply col_max_upper; [exact Hmax|]. by apply list_elem_of_fmap_2.
Qed.

Lemma all_pass_filter_is_identity_witness :
  df_filtered sample_table
    (mkFilterSpec All All All (date 2023 1 5) (date 2023 2 10)) = sample_table.
Proof.
  apply all_pass_filter_is_identity; try reflexivity.
  intros _. split; reflexivity.
Defined.

(** C5. The trend lists the months in chronological order, each month
    once; a month is listed exactly when some row of the view was ordered
    in it, and its value is the sum of the sales of the rows of that month. *)
Theorem trend_is_monthly_sum_in_order (df : DataFrame) :
  StronglySorted period_lt (Series.index (trend df))
  ∧ NoDup (Series.index (trend df))
  ∧ (∀ p, p ∈ Series.index (trend df)
          ↔ ∃ r, r ∈ df ∧ year (Col.order_date r) = p_year p
                       ∧ month (Col.order_date r) = p_month p)
  ∧ (∀ p v, (p, v) ∈ trend df →
       v = total_sales
             (select (λ r, bool_decide (to_period_M (Col.order_date r) = p)) df)).
Proof.
  unfold trend. rewrite groupby_index.
  split; [|split; [|split]].
  - apply (StronglySorted_weaken _ _ _ key_lt_period_lt), labels_sorted.
  - apply labels_NoDup.
  - intros p. rewrite elem_of_labels.
    change (map ?f ?l) with (f <$> l). rewrite list_elem_of_fmap. split.
    + intros (r & -> & Hr). by exists r.
    + intros (r & Hr & Hy & Hm). exists r. split; [|done].
      destruct p. unfold to_period_M. simpl in *. by subst.
  - intros p v Hin. by apply elem_of_groupby in Hin as [_ ->].
Qed.

(** C6. On a non-empty selection the top category is the category with the
    largest sales sum and the top city the city with the largest sales sum;
    when several labels reach the largest sum, the answer is the smallest
    of them in label order. *)
Theorem top_metrics_are_first_argmax (df : DataFrame) :
  df ≠ [] →
  (∃ c, top_category df = Ok c ∧ first_argmax Col.category df c)
  ∧ (∃ c, top_city df = Ok c ∧ first_argmax Col.city df c).
Proof.
  intros Hne. split.
  - by apply top_category_first_argmax.
  - by apply top_city_first_argmax.
Qed.

Lemma top_metrics_are_first_argmax_witness :
  (∃ c, top_category tied_table = Ok c
        ∧ first_argmax Col.category tied_table c)
  ∧ (∃ c, top_city tied_table = Ok c ∧ first_argmax Col.city tied_table c).
Proof. apply top_metrics_are_first_argmax. discriminate. Defined.

(** C7, as the claim states it, does not hold of the float64 column. On
    the rows 1.1 (Furniture), 1.1 and 19.99 (Technology) the total is
    22.189999999999998, the category sums are 1.1 and 21.09, and these add
    up to 22.19. *)
Lemma category_sums_miss_total_in_float64 :
  f64_total_sales rounding_view = 22.189999999999998%float
  ∧ f64_cat_sales rounding_view
    = [("Furniture", 1.1%float); ("Technology", 21.09%float)]
  ∧ f64_sum (map snd (f64_cat_sales rounding_view)) = 22.19%float
  ∧ f64_sum (map snd (f64_cat_sales rounding_view))
    ≠ f64_total_sales rounding_view.
Proof.
  split; [vm_compute; reflexivity|]. split; [vm_compute; reflexivity|].
  split; [vm_compute; reflexivity|].
  intros Heq.
  apply (f_equal (PrimFloat.ltb (f64_total_sales rounding_view))) in Heq.
  vm_compute in Heq. discriminate.
Qed.

(** C7, amended. The category aggregation partitions the view: the groups
    of the categories it lists, put together, are the rows of the view,
    each once; the categories are distinct and each value is the sales sum
    of its group. Where the amounts are added exactly, the category sums
    therefore add up to the total sales; under float64 rounding the two
    may differ in the last digits. *)
Theorem categories_partition_the_view (df : DataFrame) :
  concat (map (λ c, select (λ r, bool_decide (Col.category r = c)) df)
              (Series.index (cat_sales df))) ≡ₚ df
  ∧ NoDup (Series.index (cat_sales df))
  ∧ (∀ r, r ∈ df → Col.category r ∈ Series.index (cat_sales df))
  ∧ (∀ c v, (c, v) ∈ cat_sales df →
       v = total_sales (select (λ r, bool_decide (Col.category r = c)) df))
  ∧ Series.sum (Series.values (cat_sales df)) = total_sales df.
Proof.
  unfold cat_sales. rewrite groupby_index.
  split; [|split; [|split; [|split]]].
  - apply groups_partition; [apply labels_NoDup|].
    intros r Hr. apply elem_of_labels.
    by apply (list_elem_of_fmap_2 Col.category).
  - apply labels_NoDup.
  - intros r Hr. apply elem_of_labels. by apply (list_elem_of_fmap_2 Col.category).
  - intros c v Hin. by apply elem_of_groupby in Hin as [_ ->].
  - apply groupby_values_sum.
Qed.

(** C8. A start date after the end date selects nothing: the filter
    returns the empty frame. *)
Theorem reversed_range_is_empty (df : DataFrame) (spec : FilterSpec) :
  ts_lt (end_date spec) (start_date spec) → df_filtered df spec = [].
Proof.
  intros Hrev. rewrite df_filtered_filter_spec. unfold filter_spec.
  change (List.filter (satisfies spec) df) with (select (satisfies spec) df).
  apply select_none. intros r _.
  destruct (satisfies spec r) eqn:E; [|done].
  apply satisfies_active in E as (_ & _ & _ & Hlo & Hhi).
  destruct (ts_le_lt_False _ _ (ts_le_trans _ _ _ Hlo Hhi) Hrev).
Qed.

Lemma reversed_range_is_empty_witness :
  df_filtered sample_table
    (mkFilterSpec All All All (date 2023 12 31) (date 2023 1 1)) = [].
Proof.
  apply reversed_range_is_empty. unfold ts_lt. simpl. lia.
Defined.

(** C9. A pass of the script from the loaded table finishes, and the object
    the table variable refers to is the same frame afterwards, as is every
    other object the store held before the pass; the cards it shows are
    those of the filtered rows of that table. *)
Theorem pass_leaves_table_unchanged (argsort : list Z → list nat) (df : loc)
    (t : DataFrame) (spec : FilterSpec) (selected : Page) (cat : string)
    (h : gmap loc object) :
  h !! df = Some (ODataFrame t) →
  ∃ cards shown h',
    app argsort df spec selected cat h = Ok ((cards, shown), h')
    ∧ h' !! df = Some (ODataFrame t)
    ∧ h ⊆ h'
    ∧ metrics (df_filtered t spec) = Ok cards.
Proof.
  intros Hdf.
  destruct (returns_app argsort df t spec selected cat h Hdf)
    as ([cards shown] & h' & Happ & Hsub & Hcards).
  exists cards, shown, h'. split; [done|]. split; [|done].
  by eapply lookup_weaken.
Qed.

Lemma pass_leaves_table_unchanged_witness :
  ∃ cards shown h',
    app (argsort_by_insertion false) 0%nat year_2023 Trends All
      {[ 0%nat := ODataFrame sample_table ]} = Ok ((cards, shown), h')
    ∧ h' !! 0%nat = Some (ODataFrame sample_table)
    ∧ ({[ 0%nat := ODataFrame sample_table ]} : gmap loc object) ⊆ h'
    ∧ metrics (df_filtered sample_table year_2023) = Ok cards.
Proof. apply pass_leaves_table_unchanged. reflexivity. Defined.

(** C10. On a non-empty selection the top category is the category of some
    row of the selection and the top city the city of some row; so either
    shows ["-"] only when ["-"] is a category, or a city, of the data. *)
Theorem top_metrics_occur_in_view (df : DataFrame) :
  df ≠ [] →
  (∃ c, top_category df = Ok c ∧ ∃ r, r ∈ df ∧ Col.category r = c)
  ∧ (∃ c, top_city df = Ok c ∧ ∃ r, r ∈ df ∧ Col.city r = c)
  ∧ (top_category df = Ok "-" → ∃ r, r ∈ df ∧ Col.category r = "-")
  ∧ (top_city df = Ok "-" → ∃ r, r ∈ df ∧ Col.city r = "-").
Proof.
  intros Hne.
  destruct (top_category_first_argmax df Hne) as (c1 & H1 & Hin1 & _).
  destruct (top_city_first_argmax df Hne) as (c2 & H2 & Hin2 & _).
  split; [by exists c1|]. split; [by exists c2|]. split.
  - intros Hdash. rewrite H1 in Hdash. by injection Hdash as <-.
  - intros Hdash. rewrite H2 in Hdash. by injection Hdash as <-.
Qed.

Lemma top_metrics_occur_in_view_witness :
  (∃ c, top_category sample_table = Ok c
        ∧ ∃ r, r ∈ sample_table ∧ Col.category r = c)
  ∧ (∃ c, top_city sample_table = Ok c
          ∧ ∃ r, r ∈ sample_table ∧ Col.city r = c)
  ∧ (top_category sample_table = Ok "-"
     → ∃ r, r ∈ sample_table ∧ Col.category r = "-")
  ∧ (top_city sample_table = Ok "-"
     → ∃ r, r ∈ sample_table ∧ Col.city r = "-").
Proof. apply top_metrics_occur_in_view. discriminate. Defined.

(** ** The theme of the session *)

Lemma init_theme_lookup ss :
  ∃ t, init_theme ss !! theme_key = Some t
       ∧ (ss !! theme_key = None → t = "light")
       ∧ (∀ t0, ss !! theme_key = Some t0 → t = t0).
Proof.
  unfold init_theme. destruct (ss !! theme_key) as [t0|] eqn:E.
  - exists t0. rewrite E. split; [done|]. split; [done|]. by intros ? [= ->].
  - exists "light". rewrite lookup_insert_eq. done.
Qed.

(** X1. Once lines 43-44 have run, no later read of the theme raises: the
    toggle, the palette and the button label all succeed. A session without
    the key starts light, a theme already set is left alone and no other
    key is touched; without that step the toggle raises [KeyError] on a
    session that has no theme. *)
Theorem init_theme_makes_reads_safe (ss : gmap string string) :
  (∃ ss', toggle_theme (init_theme ss) = Ok ss')
  ∧ (∃ p, theme_colors (init_theme ss) = Ok p)
  ∧ (∃ l, theme_button_label (init_theme ss) = Ok l)
  ∧ (ss !! theme_key = None →
       init_theme ss !! theme_key = Some "light"
       ∧ dark_mode (init_theme ss) = false
       ∧ ∃ e, toggle_theme ss = Raise e)
  ∧ (is_Some (ss !! theme_key) → init_theme ss = ss)
  ∧ (∀ k, k ≠ theme_key → init_theme ss !! k = ss !! k).
Proof.
  destruct (init_theme_lookup ss) as (t & Ht & Hnone & Hsome).
  split; [unfold toggle_theme; rewrite Ht; by eexists|].
  split; [unfold theme_colors; rewrite Ht; by eexists|].
  split; [unfold theme_button_label; rewrite Ht; by eexists|].
  split; [|split].
  - intros Hmiss. rewrite Ht, (Hnone Hmiss). split; [done|]. split.
    + unfold dark_mode. by rewrite Ht, (Hnone Hmiss).
    + unfold toggle_theme. rewrite Hmiss. by eexists.
  - intros [t0 Ht0]. unfold init_theme. by rewrite Ht0.
  - intros k Hk. unfold init_theme. destruct (ss !! theme_key); [done|].
    by rewrite lookup_insert_ne.
Qed.

(** X2. On a session that has a theme the toggle succeeds, leaves a theme
    that is ["light"] or ["dark"], changes no other key, and a second
    toggle restores a session whose theme was ["light"] or ["dark"]. *)
Theorem toggle_theme_twice (ss : gmap string string) (t : string) :
  ss !! theme_key = Some t →
  ∃ ss' t',
    toggle_theme ss = Ok ss'
    ∧ ss' !! theme_key = Some t' ∧ (t' = "light" ∨ t' = "dark") ∧ t' ≠ t
    ∧ (∀ k, k ≠ theme_key → ss' !! k = ss !! k)
    ∧ (t = "light" ∨ t = "dark" → toggle_theme ss' = Ok ss).
Proof.
  intros Ht. unfold toggle_theme at 1. rewrite Ht.
  eexists _, _. split; [reflexivity|]. rewrite lookup_insert_eq.
  split; [reflexivity|].
  split; [destruct (String.eqb t "light"); auto|].
  split.
  { destruct (String.eqb_spec t "light") as [->|Hne]; [done|]. congruence. }
  split; [intros k Hk; by rewrite lookup_insert_ne|].
  intros Hld. unfold toggle_theme. rewrite lookup_insert_eq, insert_insert_eq.
  f_equal. apply insert_id. rewrite Ht. by destruct Hld as [-> | ->].
Qed.

Lemma toggle_theme_twice_witness :
  ∃ ss' t',
    toggle_theme {[ theme_key := "dark" ]} = Ok ss'
    ∧ ss' !! theme_key = Some t' ∧ (t' = "light" ∨ t' = "dark") ∧ t' ≠ "dark"
    ∧ (∀ k, k ≠ theme_key →
         ss' !! k = ({[ theme_key := "dark" ]} : gmap string string) !! k)
    ∧ ("dark" = "light" ∨ "dark" = "dark" →
         toggle_theme ss' = Ok {[ theme_key := "dark" ]}).
Proof. apply toggle_theme_twice. reflexivity. Defined.

(** X3. The sidebar button names the theme a click on it produces: its text
    is the moon and ["dark mode"] exactly when the toggle leaves the theme
    ["dark"], and the sun and ["light mode"] exactly when it leaves it
    ["light"]; the palette drawn after the click is the dark one in the
    first case only. *)
Theorem button_names_the_next_theme (ss : gmap string string) (t : string) :
  ss !! theme_key = Some t →
  ∃ ss' t',
    toggle_theme ss = Ok ss' ∧ ss' !! theme_key = Some t'
    ∧ theme_button_label ss
      = Ok ((if String.eqb t' "dark" then "🌙 " else "☀️ ") +:+ t' +:+ " mode")
    ∧ dark_mode ss' = String.eqb t' "dark"
    ∧ theme_colors ss'
      = Ok (if String.eqb t' "dark"
            then mkPalette "#18122B" "#22223B" "#a259ff" "#fff"
            else mkPalette "#fff" "#f7f7fa" "#a259ff" "#22223B").
Proof.
  intros Ht. unfold toggle_theme, theme_button_label, dark_mode, theme_colors.
  rewrite Ht. eexists _, _. split; [reflexivity|]. rewrite lookup_insert_eq.
  split; [reflexivity|]. by destruct (String.eqb t "light").
Qed.

Lemma button_names_the_next_theme_witness :
  ∃ ss' t',
    toggle_theme {[ theme_key := "light" ]} = Ok ss'
    ∧ ss' !! theme_key = Some t'
    ∧ theme_button_label {[ theme_key := "light" ]}
      = Ok ((if String.eqb t' "dark" then "🌙 " else "☀️ ") +:+ t' +:+ " mode")
    ∧ dark_mode ss' = String.eqb t' "dark"
    ∧ theme_colors ss'
      = Ok (if String.eqb t' "dark"
            then mkPalette "#18122B" "#22223B" "#a259ff" "#fff"
            else mkPalette "#fff" "#f7f7fa" "#a259ff" "#22223B").
Proof. apply (button_names_the_next_theme _ "light"). reflexivity. Defined.

(** ** The options of the select boxes *)

Lemma elem_of_unique c x : x ∈ unique c ↔ x ∈ c.
Proof.
  induction c as [|y c IH]; simpl; [done|].
  rewrite !elem_of_cons, list_elem_of_In, filter_In, <- list_elem_of_In, IH.
  rewrite negb_true_iff, String.eqb_neq.
  destruct (decide (x = y)); tauto.
Qed.

Lemma NoDup_filter_bool {A} (f : A → bool) (l : list A) :
  NoDup l → NoDup (List.filter f l).
Proof.
  induction 1 as [|x l Hx _ IH]; simpl; [constructor|].
  destruct (f x); [|done]. constructor; [|done].
  rewrite list_elem_of_In, filter_In, <- list_elem_of_In. tauto.
Qed.

Lemma unique_NoDup c : NoDup (unique c).
Proof.
  induction c as [|y c IH]; simpl; constructor.
  - rewrite list_elem_of_In, filter_In, negb_true_iff, String.eqb_neq. tauto.
  - by apply NoDup_filter_bool.
Qed.

Lemma insort_Permutation x l : insort x l ≡ₚ x :: l.
Proof.
  induction l as [|y l IH]; simpl; [done|].
  destruct (String.leb x y); [done|]. rewrite IH. apply Permutation_swap.
Qed.

Lemma sorted_Permutation l : sorted l ≡ₚ l.
Proof.
  induction l as [|x l IH]; simpl; [done|].
  by rewrite insort_Permutation, IH.
Qed.

Lemma insort_sorted x l :
  x ∉ l → StronglySorted key_lt l → StronglySorted key_lt (insort x l).
Proof.
  intros Hx Hl. induction Hl as [|y l Hl IH Hy]; simpl; [repeat constructor|].
  apply not_elem_of_cons in Hx as [Hxy Hx].
  destruct (String.leb x y) eqn:E.
  - assert (key_lt x y) as Hlt by (split; done).
    constructor; [by constructor|]. constructor; [done|].
    eapply Forall_impl; [exact Hy|]. intros z Hz. by eapply key_lt_trans.
  - constructor; [by apply IH|].
    rewrite insort_Permutation. constructor; [|done].
    by apply (key_leb_false (K := string)).
Qed.

Lemma sorted_strictly l : NoDup l → StronglySorted key_lt (sorted l).
Proof.
  induction 1 as [|x l Hx _ IH]; simpl; [constructor|].
  apply insort_sorted; [|done]. by rewrite sorted_Permutation.
Qed.

Lemma key_lt_asym (a b : string) : key_lt a b → key_lt b a → False.
Proof.
  intros [Hab Hne] [Hba _]. apply Hne. by apply (key_leb_antisym (K := string)).
Qed.

(** Two strictly ascending lists with the same members are equal. *)
Lemma strictly_sorted_unique (l1 l2 : list string) :
  StronglySorted key_lt l1 → StronglySorted key_lt l2 →
  (∀ x, x ∈ l1 ↔ x ∈ l2) → l1 = l2.
Proof.
  intros H1. revert l2.
  induction H1 as [|x l1 Hl1 IH Hx]; intros l2 H2 Hmem.
  - destruct l2 as [|y l2]; [done|].
    assert (y ∈ @nil string) as Hy by (apply Hmem; left). inversion Hy.
  - destruct H2 as [|y l2 Hl2 Hy].
    { assert (x ∈ @nil string) as Hx' by (apply Hmem; left). inversion Hx'. }
    assert (x = y) as ->.
    { assert (x ∈ y :: l2) as Hxin by (apply Hmem; left).
      assert (y ∈ x :: l1) as Hyin by (apply Hmem; left).
      apply elem_of_cons in Hxin as [?|Hxin]; [done|].
      apply elem_of_cons in Hyin as [?|Hyin]; [done|].
      eapply Forall_forall in Hx; [|exact Hyin].
      eapply Forall_forall in Hy; [|exact Hxin].
      destruct (key_lt_asym _ _ Hx Hy). }
    f_equal. apply IH; [done|]. intros z. split; intros Hz.
    + assert (z ∈ y :: l2) as Hin by (apply Hmem; by right).
      apply elem_of_cons in Hin as [->|?]; [|done].
      eapply Forall_forall in Hx; [|exact Hz]. by apply key_lt_irrefl in Hx.
    + assert (z ∈ y :: l1) as Hin by (apply Hmem; by right).
      apply elem_of_cons in Hin as [->|?]; [|done].
      eapply Forall_forall in Hy; [|exact Hz]. by apply key_lt_irrefl in Hy.
Qed.

Lemma sorted_unique_labels (col : list string) :
  sorted (unique col) = labels col.
Proof.
  apply strictly_sorted_unique.
  - apply sorted_strictly, unique_NoDup.
  - apply labels_sorted.
  - intros x. by rewrite sorted_Permutation, elem_of_unique, elem_of_labels.
Qed.

(** X4. The options of a select box are ["All"] followed by the values of
    the column, each once, in strictly ascending order; a value is offered
    after ["All"] exactly when it occurs in the column. *)
Theorem options_are_all_then_sorted_values (col : list string) :
  ∃ rest,
    options col = All :: rest
    ∧ StronglySorted key_lt rest
    ∧ NoDup rest
    ∧ (∀ x, x ∈ rest ↔ x ∈ col)
    ∧ length rest = nunique col.
Proof.
  exists (sorted (unique col)). split; [done|].
  rewrite sorted_unique_labels.
  split; [apply labels_sorted|]. split; [apply labels_NoDup|].
  split; [apply elem_of_labels|]. apply labels_length.
Qed.

(** X5. The select box of the Category page offers ["All"] and then exactly
    the categories the category chart shows, in the order of its bars. *)
Theorem cat_options_match_cat_sales (df_filtered : DataFrame) :
  cat_options df_filtered = All :: Series.index (cat_sales df_filtered).
Proof.
  unfold cat_options, options, cat_sales. simpl.
  by rewrite sorted_unique_labels, groupby_index.
Qed.

(** ** The widgets' defaults and picks *)

Lemma foldl_ts_min_elem xs : ∀ x, foldl ts_min x xs ∈ x :: xs.
Proof.
  induction xs as [|z xs IH]; intros x; simpl; [left|].
  specialize (IH (ts_min x z)). apply elem_of_cons in IH as [->|IH].
  - unfold ts_min. destruct (ts_leb x z); [left | right; left].
  - right. by right.
Qed.

Lemma foldl_ts_max_elem xs : ∀ x, foldl ts_max x xs ∈ x :: xs.
Proof.
  induction xs as [|z xs IH]; intros x; simpl; [left|].
  specialize (IH (ts_max x z)). apply elem_of_cons in IH as [->|IH].
  - unfold ts_max. destruct (ts_leb x z); [right; left | left].
  - right. by right.
Qed.

Lemma col_min_elem c m : col_min c = Some m → m ∈ c.
Proof. destruct c; [done|]. intros [= <-]. apply foldl_ts_min_elem. Qed.

Lemma col_max_elem c m : col_max c = Some m → m ∈ c.
Proof. destruct c; [done|]. intros [= <-]. apply foldl_ts_max_elem. Qed.

Lemma default_spec_inv df d :
  default_spec df = Some d →
  region d = All ∧ state d = All ∧ city d = All
  ∧ min_date df = Some (start_date d) ∧ max_date df = Some (end_date d).
Proof.
  unfold default_spec.
  destruct (min_date df) as [lo|], (max_date df) as [hi|]; try done.
  by intros [= <-].
Qed.

Lemma within_default_range df d r :
  default_spec df = Some d → r ∈ df →
  ts_leb (start_date d) (Col.order_date r) = true
  ∧ ts_leb (Col.order_date r) (end_date d) = true.
Proof.
  intros Hd Hr. apply default_spec_inv in Hd as (_ & _ & _ & Hmin & Hmax).
  rewrite !ts_leb_le. split.
  - eapply col_min_lower; [exact Hmin|]. by apply list_elem_of_fmap_2.
  - eapply col_max_upper; [exact Hmax|]. by apply list_elem_of_fmap_2.
Qed.

(** X6. The widgets start on a valid range: on a table with rows the
    default start and end are order dates of the table with start <= end,
    and the default selection is the whole table; only a table without rows
    has no default. *)
Theorem default_spec_is_valid (df : DataFrame) :
  (default_spec df = None ↔ df = [])
  ∧ ∀ d, default_spec df = Some d →
      (∃ r, r ∈ df ∧ Col.order_date r = start_date d)
      ∧ (∃ r, r ∈ df ∧ Col.order_date r = end_date d)
      ∧ ts_le (start_date d) (end_date d)
      ∧ df_filtered df d = df.
Proof.
  split.
  - unfold default_spec, min_date, max_date. by destruct df.
  - intros d Hd.
    pose proof (default_spec_inv df d Hd) as (Hr & Hs & Hc & Hmin & Hmax).
    pose proof (col_min_elem _ _ Hmin) as Hlo.
    pose proof (col_max_elem _ _ Hmax) as Hhi.
    apply list_elem_of_fmap in Hlo as (rlo & Hlo & Hrlo).
    apply list_elem_of_fmap in Hhi as (rhi & Hhi & Hrhi).
    split; [by exists rlo|]. split; [by exists rhi|]. split.
    + rewrite Hhi. eapply col_min_lower; [exact Hmin|].
      by apply list_elem_of_fmap_2.
    + rewrite df_filtered_filter_spec. unfold filter_spec.
      apply select_all. intros r Hin. unfold satisfies.
      destruct (within_default_range df d r Hd Hin) as [-> ->].
      by rewrite Hr, Hs, Hc.
Qed.

Lemma elem_of_options col x : x ∈ options col → x ≠ All → x ∈ col.
Proof.
  unfold options. simpl. intros Hin Hne.
  apply elem_of_cons in Hin as [?|Hin]; [done|].
  by rewrite sorted_Permutation, elem_of_unique in Hin.
Qed.

Section pick.
Variable df : DataFrame.
Variable d : FilterSpec.
Hypothesis default : default_spec df = Some d.
Variable pick : string.
Hypothesis not_All : pick ≠ All.

Lemma str_ne_pick : String.eqb pick All = false.
Proof. by apply String.eqb_neq. Qed.

Lemma pick_region :
df_filtered df (mkFilterSpec pick All All (start_date d) (end_date d))
= select (λ r, String.eqb (Col.region r) pick) df.
Proof.
rewrite df_filtered_filter_spec. unfold filter_spec.
apply select_ext. intros r Hr. unfold satisfies. simpl.
destruct (within_default_range df d r default Hr) as [-> ->].
rewrite str_ne_pick. simpl. by rewrite !andb_true_r.
Qed.

Lemma pick_state :
df_filtered df (mkFilterSpec All pick All (start_date d) (end_date d))
= select (λ r, String.eqb (Col.state r) pick) df.
Proof.
rewrite df_filtered_filter_spec. unfold filter_spec.
apply select_ext. intros r Hr. unfold satisfies. simpl.
destruct (within_default_range df d r default Hr) as [-> ->].
rewrite str_ne_pick. simpl. by rewrite !andb_true_r.
Qed.

Lemma pick_city :
df_filtered df (mkFilterSpec All All pick (start_date d) (end_date d))
= select (λ r, String.eqb (Col.city r) pick) df.
Proof.
rewrite df_filtered_filter_spec. unfold filter_spec.
apply select_ext. intros r Hr. unfold satisfies. simpl.
destruct (within_default_range df d r default Hr) as [-> ->].
rewrite str_ne_pick. simpl. by rewrite !andb_true_r.
Qed.

Lemma offered_pick_has_rows (col : Row → string) :
pick ∈ options (map col df) →
select (λ r, String.eqb (col r) pick) df ≠ [].
Proof.
intros Hin. apply elem_of_options in Hin; [|done].
apply list_elem_of_fmap in Hin as (r & Hpick & Hr).
intros Hnil.
assert (r ∈ select (λ r, String.eqb (col r) pick) df) as Hsel.
{ apply elem_of_select. split; [done|]. by apply String.eqb_eq. }
rewrite Hnil in Hsel. inversion Hsel.
Qed.
End pick.

(** X7. Picking one offered value in a single select box, the other widgets
    left at their defaults, selects exactly the rows of the table with that
    value, in table order, and at least one row: an offered region, state
    or city other than ["All"] never gives an empty view on its own. *)
Theorem offered_pick_selects_its_rows (df : DataFrame) (d : FilterSpec)
    (pick : string) :
  default_spec df = Some d → pick ≠ All →
  (pick ∈ region_options df →
     df_filtered df (mkFilterSpec pick All All (start_date d) (end_date d))
     = select (λ r, String.eqb (Col.region r) pick) df
     ∧ df_filtered df (mkFilterSpec pick All All (start_date d) (end_date d))
       ≠ [])
  ∧ (pick ∈ state_options df →
       df_filtered df (mkFilterSpec All pick All (start_date d) (end_date d))
       = select (λ r, String.eqb (Col.state r) pick) df
       ∧ df_filtered df (mkFilterSpec All pick All (start_date d) (end_date d))
         ≠ [])
  ∧ (pick ∈ city_options df →
       df_filtered df (mkFilterSpec All All pick (start_date d) (end_date d))
       = select (λ r, String.eqb (Col.city r) pick) df
       ∧ df_filtered df (mkFilterSpec All All pick (start_date d) (end_date d))
         ≠ []).
Proof.
  intros Hd Hne. split; [|split]; intros Hin.
  - rewrite (pick_region df d Hd pick Hne). split; [done|].
    by apply offered_pick_has_rows.
  - rewrite (pick_state df d Hd pick Hne). split; [done|].
    by apply offered_pick_has_rows.
  - rewrite (pick_city df d Hd pick Hne). split; [done|].
    by apply offered_pick_has_rows.
Qed.

Lemma offered_pick_selects_its_rows_witness :
  ("West" ∈ region_options sample_table →
     df_filtered sample_table
       (mkFilterSpec "West" All All (date 2023 1 5) (date 2023 2 10))
     = select (λ r, String.eqb (Col.region r) "West") sample_table
     ∧ df_filtered sample_table
         (mkFilterSpec "West" All All (date 2023 1 5) (date 2023 2 10)) ≠ [])
  ∧ ("West" ∈ state_options sample_table →
       df_filtered sample_table
         (mkFilterSpec All "West" All (date 2023 1 5) (date 2023 2 10))
       = select (λ r, String.eqb (Col.state r) "West") sample_table
       ∧ df_filtered sample_table
           (mkFilterSpec All "West" All (date 2023 1 5) (date 2023 2 10)) ≠ [])
  ∧ ("West" ∈ city_options sample_table →
       df_filtered sample_table
         (mkFilterSpec All All "West" (date 2023 1 5) (date 2023 2 10))
       = select (λ r, String.eqb (Col.city r) "West") sample_table
       ∧ df_filtered sample_table
           (mkFilterSpec All All "West" (date 2023 1 5) (date 2023 2 10)) ≠ []).
Proof.
  apply (offered_pick_selects_its_rows sample_table
           (mkFilterSpec All All All (date 2023 1 5) (date 2023 2 10)) "West").
  - reflexivity.
  - discriminate.
Defined.

(** ** How filters compose *)

Lemma narrows_satisfies spec' spec r :
  narrows spec' spec → satisfies spec' r = true → satisfies spec r = true.
Proof.
  intros (Hr & Hs & Hc & Hlo & Hhi).
  rewrite !satisfies_active. unfold active_predicates.
  intros (Hr' & Hs' & Hc' & Hlo' & Hhi').
  split; [|split; [|split; [|split]]].
  - intros Hne. destruct Hr as [?|Heq]; [done|]. rewrite <- Heq in *. auto.
  - intros Hne. destruct Hs as [?|Heq]; [done|]. rewrite <- Heq in *. auto.
  - intros Hne. destruct Hc as [?|Heq]; [done|]. rewrite <- Heq in *. auto.
  - by eapply ts_le_trans.
  - by eapply ts_le_trans.
Qed.

(** X8. Filtering a view again with a request that asks for no more (each
    selector of the first request is ["All"] or kept, the dates lie within
    the first range) gives what the second request gives on the table; the
    result is a subsequence of the first view. In particular a filter
    applied twice changes nothing. *)
Theorem refilter_with_narrower_spec (df : DataFrame) (spec spec' : FilterSpec) :
  narrows spec' spec →
  df_filtered (df_filtered df spec) spec' = df_filtered df spec'
  ∧ sublist (df_filtered df spec') (df_filtered df spec)
  ∧ df_filtered (df_filtered df spec) spec = df_filtered df spec.
Proof.
  intros Hn. rewrite !df_filtered_filter_spec. unfold filter_spec.
  change (List.filter ?f ?l) with (select f l).
  assert (select (satisfies spec') (select (satisfies spec) df)
          = select (satisfies spec') df) as Hre.
  { rewrite select_select. apply select_ext. intros r _.
    destruct (satisfies spec' r) eqn:E; [|by rewrite andb_false_r].
    by rewrite (narrows_satisfies _ _ _ Hn E). }
  split; [done|]. split.
  - rewrite <- Hre. apply select_sublist.
  - rewrite select_select. apply select_ext. intros r _.
    by destruct (satisfies spec r).
Qed.

Lemma refilter_with_narrower_spec_witness :
  df_filtered (df_filtered sample_table year_2023)
    (mkFilterSpec "East" All All (date 2023 1 1) (date 2023 6 30))
  = df_filtered sample_table
      (mkFilterSpec "East" All All (date 2023 1 1) (date 2023 6 30))
  ∧ sublist
      (df_filtered sample_table
         (mkFilterSpec "East" All All (date 2023 1 1) (date 2023 6 30)))
      (df_filtered sample_table year_2023)
  ∧ df_filtered (df_filtered sample_table year_2023) year_2023
    = df_filtered sample_table year_2023.
Proof.
  apply refilter_with_narrower_spec. unfold narrows, ts_le. simpl.
  repeat split; auto; lia.
Defined.

(** X9. The filter looks at one row at a time: the view of two tables put
    end to end is the view of the first followed by the view of the second,
    and whether a row is kept does not depend on the rows around it. *)
Theorem filter_is_row_wise (df1 df2 : DataFrame) (spec : FilterSpec) :
  df_filtered (df1 ++ df2) spec = df_filtered df1 spec ++ df_filtered df2 spec
  ∧ ∀ r, df_filtered [r] spec = (if satisfies spec r then [r] else []).
Proof.
  rewrite !df_filtered_filter_spec. unfold filter_spec. split.
  - apply List.filter_app.
  - intros r. by rewrite df_filtered_filter_spec.
Qed.

(** ** The cards *)

Lemma sum_select_le (f : Row → Z) (mask : Row → bool) (df : DataFrame) :
  Forall (λ r, 0 ≤ f r) df →
  0 ≤ Series.sum (map f (select mask df))
  ∧ Series.sum (map f (select mask df)) ≤ Series.sum (map f df).
Proof.
  unfold select. induction 1 as [|r df Hr _ IH]; simpl; [lia|].
  destruct (mask r); simpl; lia.
Qed.

Lemma int64_wrap_id z : - 2 ^ 63 ≤ z < 2 ^ 63 → int64_wrap z = z.
Proof.
  unfold int64_wrap.
  change (2 ^ 63) with 9223372036854775808.
  change (2 ^ 64) with 18446744073709551616.
  intros Hz. rewrite Z.mod_small by lia. lia.
Qed.

Example quantity_sum_wraps : total_quantity bulk_rows = - 2 ^ 63.
Proof. reflexivity. Qed.

(** X10. While the quantities of the table are not negative and add up to
    less than 2^63, the Qty Sold card is the true sum and filtering never
    raises it: the card of any view lies between 0 and the card of the
    whole table. (Beyond that bound the int64 sum wraps around.) *)
Theorem filtered_quantity_is_bounded (df : DataFrame) (spec : FilterSpec) :
  quantities_fit_int64 df →
  total_quantity df = Series.sum (map Col.quantity df)
  ∧ total_quantity (df_filtered df spec)
    = Series.sum (map Col.quantity (df_filtered df spec))
  ∧ 0 ≤ total_quantity (df_filtered df spec) ≤ total_quantity df.
Proof.
  intros [Hnn Hfit]. rewrite df_filtered_filter_spec. unfold filter_spec.
  change (List.filter ?f ?l) with (select f l).
  pose proof (sum_select_le Col.quantity (satisfies spec) df Hnn) as Hle.
  pose proof (sum_select_le Col.quantity (λ _, true) df Hnn) as Hall.
  rewrite select_true in Hall.
  unfold total_quantity. rewrite !int64_wrap_id by lia. lia.
Qed.

Lemma filtered_quantity_is_bounded_witness :
  total_quantity sample_table = Series.sum (map Col.quantity sample_table)
  ∧ total_quantity (df_filtered sample_table year_2023)
    = Series.sum (map Col.quantity (df_filtered sample_table year_2023))
  ∧ 0 ≤ total_quantity (df_filtered sample_table year_2023)
      ≤ total_quantity sample_table.
Proof.
  apply filtered_quantity_is_bounded. split.
  - repeat constructor; simpl; lia.
  - reflexivity.
Defined.

Lemma nunique_le_length (c : list string) : (nunique c ≤ length c)%nat.
Proof.
  unfold nunique. apply submseteq_length, NoDup_submseteq.
  - apply NoDup_remove_dups.
  - intros x. by rewrite elem_of_remove_dups.
Qed.

Lemma nunique_mono (c1 c2 : list string) :
  (∀ x, x ∈ c1 → x ∈ c2) → (nunique c1 ≤ nunique c2)%nat.
Proof.
  intros Hsub. unfold nunique. apply submseteq_length, NoDup_submseteq.
  - apply NoDup_remove_dups.
  - intros x. rewrite !elem_of_remove_dups. apply Hsub.
Qed.

(** X11. The Orders card counts order ids, not rows: it never exceeds the
    number of rows of the view, it is 0 exactly on the empty view, and a
    view never shows more orders than the table has. *)
Theorem order_count_bounds (df : DataFrame) (spec : FilterSpec) :
  0 ≤ order_count df ≤ Z.of_nat (length df)
  ∧ (order_count df = 0 ↔ df = [])
  ∧ order_count (df_filtered df spec) ≤ order_count df.
Proof.
  unfold order_count. split; [|split].
  - pose proof (nunique_le_length (map Col.order_id df)) as Hle.
    rewrite length_map in Hle. lia.
  - split.
    + destruct df as [|r df]; [done|]. intros Hz.
      assert (nunique (map Col.order_id (r :: df)) = 0%nat) as Hn by lia.
      unfold nunique in Hn. apply length_zero_iff_nil in Hn.
      assert (Col.order_id r ∈ remove_dups (map Col.order_id (r :: df))) as Hin
        by (apply elem_of_remove_dups; left).
      rewrite Hn in Hin. inversion Hin.
    + by intros ->.
  - apply inj_le, nunique_mono. intros x Hx.
    apply list_elem_of_fmap in Hx as (r & -> & Hr).
    apply (list_elem_of_fmap_2 Col.order_id).
    rewrite df_filtered_filter_spec in Hr. unfold filter_spec in Hr.
    by apply elem_of_select in Hr as [? _].
Qed.

Lemma idxmax_raises_iff_nil {K} (s : Series.t K) :
  (∃ e, Series.idxmax s = Raise e) ↔ s = [].
Proof.
  destruct s as [|kv s]; simpl.
  - split; [done|]. intros _. by eexists.
  - split; [by intros [e ?]|done].
Qed.

Lemma groupby_nil_iff {K} `{KeyOrdLaws K} `{EqDecision K} (key : Row → K) df :
  groupby_sales_sum key df = [] ↔ df = [].
Proof.
  split; [|by intros ->].
  intros Hnil. destruct (decide (df = [])) as [|Hne]; [done|].
  by destruct (groupby_nonempty key df Hne).
Qed.

Lemma dropna_nil_iff isna (df : DataFrame) :
  dropna isna df = [] ↔ ∀ r, r ∈ df → isna r = true.
Proof.
  unfold dropna. split.
  - intros Hnil r Hr. destruct (isna r) eqn:E; [done|].
    assert (r ∈ select (λ r, negb (isna r)) df) as Hin
      by (apply elem_of_select; by rewrite E).
    rewrite Hnil in Hin. inversion Hin.
  - intros Hall. apply select_none. intros r Hr. by rewrite (Hall r Hr).
Qed.

(** X12. The guard of the Top Category and Top City cards covers the empty
    view only. On a view with rows the expression raises exactly when the
    label cell of every row is missing, because [groupby] then has no group
    for [idxmax]; otherwise the card names the label of a row whose cell
    is there. When no cell is missing it is the card of the clean table. *)
Theorem top_card_raises_iff_all_labels_missing (key : Row → string)
    (isna : Row → bool) (df : DataFrame) :
  ((∃ e, top_label key isna df = Raise e)
   ↔ df ≠ [] ∧ ∀ r, r ∈ df → isna r = true)
  ∧ (∀ c, top_label key isna df = Ok c →
       (df = [] ∧ c = "-") ∨ ∃ r, r ∈ df ∧ isna r = false ∧ key r = c)
  ∧ ((∀ r, r ∈ df → isna r = false) →
       top_label Col.category isna df = top_category df
       ∧ top_label Col.city isna df = top_city df).
Proof.
  split; [|split].
  - unfold top_label. destruct df as [|r0 df]; simpl negb; cbv iota.
    + split; [by intros [e ?]|by intros [? _]].
    + rewrite idxmax_raises_iff_nil, groupby_nil_iff, dropna_nil_iff.
      split; [done|by intros [_ ?]].
  - intros c. unfold top_label. destruct df as [|r0 df]; simpl negb; cbv iota.
    + intros [= <-]. by left.
    + intros Hc. right.
      destruct (decide (dropna isna (r0 :: df) = [])) as [Hnil|Hne].
      { by rewrite Hnil in Hc. }
      destruct (idxmax_groupby key _ Hne) as (c' & Hc' & (r & Hr & Hkey) & _).
      rewrite Hc in Hc'. injection Hc' as <-.
      apply elem_of_select in Hr as [Hr Hpresent].
      exists r. split; [done|]. split; [|done].
      by apply negb_true_iff.
  - intros Hall. unfold top_label, top_category, top_city, dropna.
    rewrite select_all; [done|]. intros r Hr. by rewrite (Hall r Hr).
Qed.

(** ** The Category page *)

(** X15. Every option the select box of the Category page offers on a
    view with rows gives a chart with at least one bar, and the bars are
    exactly the sub-categories of the rows of the picked category (of all
    rows for ["All"]). *)
Theorem offered_category_has_bars (argsort : list Z → list nat)
    (cat : string) (df : DataFrame) :
  argsort_contract argsort →
  (cat ∈ cat_options df → df ≠ [] → subcat_sales argsort cat df ≠ [])
  ∧ (∀ s, s ∈ Series.index (subcat_sales argsort cat df)
          ↔ ∃ r, r ∈ df ∧ (cat = All ∨ Col.category r = cat)
                 ∧ Col.sub_category r = s).
Proof.
  intros Hok.
  assert (subcat_sales argsort cat df
          ≡ₚ groupby_sales_sum Col.sub_category (category_data cat df))
    as Hperm.
  { unfold subcat_sales. fold (category_data cat df).
    by apply sort_values_desc_Permutation. }
  split.
  - intros Hin Hdf Hnil.
    assert (category_data cat df ≠ []) as Hdata.
    { unfold category_data.
      destruct (String.eqb_spec cat All) as [->|Hne]; [done|].
      by apply (offered_pick_has_rows df cat Hne Col.category). }
    apply (groupby_nonempty Col.sub_category) in Hdata. apply Hdata.
    apply Permutation_nil_r. by rewrite <- Hperm, Hnil.
  - intros s. unfold Series.index. change (map fst ?l) with (fst <$> l).
    rewrite Hperm. change (fst <$> ?l) with (Series.index l).
    rewrite groupby_index, elem_of_labels.
    change (map ?f ?l) with (f <$> l). rewrite list_elem_of_fmap.
    unfold category_data.
    destruct (String.eqb_spec cat All) as [->|Hne].
    + split.
      * intros (r & -> & Hr). exists r. auto.
      * intros (r & Hr & _ & <-). by exists r.
    + split.
      * intros (r & -> & Hr). apply elem_of_select in Hr as [Hr Hcat].
        apply String.eqb_eq in Hcat. exists r. auto.
      * intros (r & Hr & [?|Hcat] & <-); [done|]. exists r. split; [done|].
        apply elem_of_select. split; [done|]. by apply String.eqb_eq.
Qed.

Lemma offered_category_has_bars_witness :
  ("Furniture" ∈ cat_options order_rows → order_rows ≠ [] →
     subcat_sales (argsort_by_insertion false) "Furniture" order_rows ≠ [])
  ∧ (∀ s, s ∈ Series.index
              (subcat_sales (argsort_by_insertion false) "Furniture" order_rows)
          ↔ ∃ r, r ∈ order_rows
                 ∧ ("Furniture" = All ∨ Col.category r = "Furniture")
                 ∧ Col.sub_category r = s).
Proof.
  apply offered_category_has_bars, argsort_by_insertion_contract.
Defined.

(** X16. The sub-category chart is the grouped sums put in descending
    order and nothing else: it has one bar per sub-category of the data of
    the page, every group with its sum and no group cut off. *)
Theorem subcat_sales_is_sorted_grouping (argsort : list Z → list nat)
    (cat : string) (df : DataFrame) :
  argsort_contract argsort →
  subcat_sales argsort cat df
    ≡ₚ groupby_sales_sum Col.sub_category (category_data cat df)
  ∧ descending (Series.values (subcat_sales argsort cat df))
  ∧ length (subcat_sales argsort cat df)
    = nunique (map Col.sub_category (category_data cat df)).
Proof.
  intros Hok. unfold subcat_sales. fold (category_data cat df).
  pose proof (sort_values_desc_Permutation argsort Hok
                (groupby_sales_sum Col.sub_category (category_data cat df)))
    as Hperm.
  split; [done|]. split; [by apply sort_values_desc_descending|].
  rewrite (Permutation_length Hperm). apply groupby_length.
Qed.

Lemma subcat_sales_is_sorted_grouping_witness :
  subcat_sales (argsort_by_insertion false) All order_rows
    ≡ₚ groupby_sales_sum Col.sub_category (category_data All order_rows)
  ∧ descending
      (Series.values (subcat_sales (argsort_by_insertion false) All order_rows))
  ∧ length (subcat_sales (argsort_by_insertion false) All order_rows)
    = nunique (map Col.sub_category (category_data All order_rows)).
Proof.
  apply subcat_sales_is_sorted_grouping, argsort_by_insertion_contract.
Defined.

(** ** The Top City card against the city chart *)

Section first_bar.
Variable argsort : list Z → list nat.
Hypothesis argsort_ok : argsort_contract argsort.
Variable df : DataFrame.
Hypothesis has_rows : df ≠ [].

Local Abbreviation by_city := (groupby_sales_sum Col.city df).
Local Abbreviation ordered := (Series.sort_values_desc argsort by_city).

Lemma top_city_is_idxmax : top_city df = Series.idxmax by_city.
Proof. unfold top_city. by destruct df. Qed.

Lemma ordered_first_bar :
∃ k v rest c,
  ordered = (k, v) :: rest ∧ top_city df = Ok c
  ∧ v = group_sales Col.city c df ∧ (c, v) ∈ ordered.
Proof.
pose proof (sort_values_desc_Permutation argsort argsort_ok by_city) as Hperm.
pose proof (sort_values_desc_descending argsort argsort_ok by_city) as Hdesc.
destruct (top_city_first_argmax df has_rows) as (c & Hc & (r & Hr & Hrc) & Hmax).
assert ((c, group_sales Col.city c df) ∈ ordered) as Hcin.
{ rewrite Hperm. apply elem_of_groupby. split; [by exists r|done]. }
destruct ordered as [|[k v] rest] eqn:E; [inversion Hcin|].
exists k, v, rest, c. split; [done|]. split; [done|].
assert ((k, v) ∈ by_city) as Hkin by (rewrite <- Hperm; left).
apply elem_of_groupby in Hkin as [(r' & Hr' & <-) ->].
destruct (Hmax r' Hr') as [Hle _].
assert (group_sales Col.city c df ≤ group_sales Col.city (Col.city r') df)
  as Hge.
{ rewrite elem_of_cons in Hcin. destruct Hcin as [Heq|Hcin];
    [injection Heq as _ Heq; lia|].
  unfold descending, Series.values in Hdesc. simpl in Hdesc.
  apply StronglySorted_inv in Hdesc as [_ Hall].
  eapply Forall_forall in Hall;
    [|by apply (list_elem_of_fmap_2 snd _ _ Hcin)].
  simpl in Hall. lia. }
assert (group_sales Col.city (Col.city r') df = group_sales Col.city c df)
  as Heq by lia.
split; [exact Heq|]. rewrite Heq at 1. exact Hcin.
Qed.

Lemma ordered_first_bar_stable :
argsort_stable argsort →
∀ k v rest c, ordered = (k, v) :: rest → top_city df = Ok c →
  v = group_sales Col.city c df → k = c.
Proof.
intros Hstable k v rest c Hord Hc Hv.
pose proof (sort_values_desc_Permutation argsort argsort_ok by_city) as Hperm.
pose proof (sort_values_desc_stable argsort argsort_ok Hstable by_city)
  as Hties.
assert ((c, v) ∈ ordered) as Hcin.
{ rewrite Hperm, Hv. apply elem_of_groupby. split; [|done].
  by destruct (top_city_first_argmax df has_rows) as (c' & Hc' & Hin & _);
    rewrite Hc in Hc'; injection Hc' as ->. }
apply list_elem_of_lookup in Hcin as [j Hj].
destruct j as [|j].
{ rewrite Hord in Hj. by injection Hj as ->. }
destruct (Hties 0%nat (S j) (k, v) (c, v)) as (i' & j' & Hlt & Hi' & Hj');
  [lia|by rewrite Hord|done|done|].
rewrite top_city_is_idxmax in Hc.
destruct (idxmax_first_max by_city) as (c' & v' & l1 & l2 & Hidx & Hsplit & Hl1 & _);
  [by apply groupby_nonempty|].
rewrite Hc in Hidx. injection Hidx as <-.
assert (NoDup (Series.index by_city)) as Hnd
  by (rewrite groupby_index; apply labels_NoDup).
assert (j' = length l1) as ->.
{ eapply (NoDup_lookup _ _ _ c Hnd).
  - unfold Series.index. change (map fst ?l) with (fst <$> l).
    by rewrite list_lookup_fmap, Hj'.
  - unfold Series.index. change (map fst ?l) with (fst <$> l).
    rewrite list_lookup_fmap, Hsplit.
    by rewrite list_lookup_middle. }
assert (v' = v) as ->.
{ rewrite Hsplit in Hj'. rewrite list_lookup_middle in Hj' by done.
  by injection Hj'. }
rewrite Hsplit, lookup_app_l in Hi' by done.
apply list_elem_of_lookup_2 in Hi'.
eapply Forall_forall in Hl1; [|exact Hi']. simpl in Hl1. lia.
Qed.
End first_bar.

(** X18. On a view with rows the Top City card and the city chart agree:
    the first bar of the chart has the sales sum of the city the card
    names, and when the sort kernel is stable it is that city. *)
Theorem top_city_is_first_bar (argsort : list Z → list nat) (df : DataFrame) :
  argsort_contract argsort → df ≠ [] →
  ∃ k v rest c,
    city_sales argsort df = (k, v) :: rest
    ∧ top_city df = Ok c
    ∧ v = group_sales Col.city c df
    ∧ (argsort_stable argsort → k = c).
Proof.
  intros Hok Hne.
  destruct (ordered_first_bar argsort Hok df Hne)
    as (k & v & rest & c & Hord & Hc & Hv & _).
  exists k, v, (take 9 rest), c. unfold city_sales, Series.head.
  rewrite Hord. split; [done|]. split; [done|]. split; [done|].
  intros Hstable.
  by eapply (ordered_first_bar_stable argsort Hok df Hne Hstable).
Qed.

Lemma top_city_is_first_bar_witness :
  ∃ k v rest c,
    city_sales (argsort_by_insertion false) tied_table = (k, v) :: rest
    ∧ top_city tied_table = Ok c
    ∧ v = group_sales Col.city c tied_table
    ∧ (argsort_stable (argsort_by_insertion false) → k = c).
Proof.
  apply top_city_is_first_bar.
  - apply argsort_by_insertion_contract.
  - discriminate.
Defined.

(** ** The store during a pass *)

Lemma fresh_not_in (h h' : gmap loc object) l :
  h ⊆ h' → h' !! l = None → h !! l = None.
Proof.
  intros Hsub Hnone. destruct (h !! l) as [o|] eqn:E; [|done].
  by rewrite (lookup_weaken _ _ _ _ E Hsub) in Hnone.
Qed.

Lemma returns_getitem_fresh l mask rows h0 h :
  h0 ⊆ h → h !! l = Some (ODataFrame rows) →
  returns (getitem l mask) h
    (λ l' h', h0 !! l' = None
              ∧ h' !! l' = Some (ODataFrame (select mask rows))).
Proof.
  intros Hsub Hl. unfold getitem.
  eapply returns_bind; [by apply returns_read_frame|].
  intros rows' h' _ [-> ->].
  destruct (returns_alloc (ODataFrame (select mask rows)) h)
    as (l' & h' & Ha & Hsub' & Hl' & Hfresh & _).
  exists l', h'. split; [done|]. split; [done|]. split; [|done].
  by eapply fresh_not_in.
Qed.

(** X19. The filtered frame never shares its object with the loaded table:
    even when every selector is ["All"], the pass ends on an object that
    was not in the store before, so a later write to the filtered frame
    could not reach the table or any object that existed before. *)
Theorem filter_data_result_is_fresh (df : loc) (t : DataFrame)
    (spec : FilterSpec) (h : gmap loc object) :
  h !! df = Some (ODataFrame t) →
  ∃ l h',
    filter_data df spec h = Ok (l, h')
    ∧ h !! l = None ∧ l ≠ df
    ∧ h' !! l = Some (ODataFrame (df_filtered t spec))
    ∧ h ⊆ h'.
Proof.
  intros Hdf.
  assert (returns (filter_data df spec) h
            (λ l h', h !! l = None
                     ∧ h' !! l = Some (ODataFrame (df_filtered t spec))))
    as (l & h' & Hrun & Hsub & Hfresh & Hl).
  { unfold filter_data, df_filtered.
    eapply returns_bind; [by apply returns_copy|]. cbv beta.
    intros l0 h0 Hs0 Hl0.
    eapply returns_bind; [by apply returns_guarded_getitem|]. cbv beta.
    intros l1 h1 Hs1 Hl1.
    eapply returns_bind; [by apply returns_guarded_getitem|]. cbv beta.
    intros l2 h2 Hs2 Hl2.
    eapply returns_bind; [by apply returns_guarded_getitem|]. cbv beta.
    intros l3 h3 Hs3 Hl3.
    apply returns_getitem_fresh; [|done].
    by repeat (etrans; [eassumption|]). }
  exists l, h'. split; [done|]. split; [done|]. split; [|done].
  intros ->. by rewrite Hdf in Hfresh.
Qed.

Lemma filter_data_result_is_fresh_witness :
  ∃ l h',
    filter_data 0%nat year_2023 {[ 0%nat := ODataFrame sample_table ]}
    = Ok (l, h')
    ∧ ({[ 0%nat := ODataFrame sample_table ]} : gmap loc object) !! l = None
    ∧ l ≠ 0%nat
    ∧ h' !! l = Some (ODataFrame (df_filtered sample_table year_2023))
    ∧ ({[ 0%nat := ODataFrame sample_table ]} : gmap loc object) ⊆ h'.
Proof. apply filter_data_result_is_fresh. reflexivity. Defined.
